(** * Refresh-token lifecycle of kinzoku-api

    A shallow embedding of
    - [apps/kinzoku-api/src/repositories/user.repository.ts]
      (the refresh-token part of [UserRepository]),
    - [apps/kinzoku-api/src/config.ts] (the cookie names),
    - [apps/kinzoku-api/src/controllers/user.controller.ts]
      (what [signUp], [signIn] and [logout] do with the refresh cookie),
    followed by the properties of the token store. *)

From stdpp Require Import base option list strings gmap.
From Stdlib Require Import ZArith.

Local Open Scope string_scope.
Local Open Scope list_scope.

(** ** The [refreshToken] table as the Prisma client exposes it *)

(** One row of the table, with the columns the repository reads and writes.
    Identifiers, user ids and hashes are strings, as in the TypeScript
    signatures; a [Date] is its number of milliseconds.  The Prisma schema
    is not among the sources: [id] is taken as the primary key, [tokenHash]
    as a unique column (it is the key of [findUnique]), [revoked] as [false]
    by default, and the user a row refers to as present in the user table. *)
Record RefreshToken := mkRefreshToken {
  id : string;
  userId : string;
  tokenHash : string;
  expiresAt : Z;
  revoked : bool
}.

(** Rows are never deleted; a new row goes to the end. *)
Definition Table := list RefreshToken.

(** What a call can throw: [new Error(message)] of the repository itself, or
    a known request error of the Prisma client ([P2002] unique constraint,
    [P2025] record to update not found). *)
Inductive Thrown :=
| JsError (message : string)
| PrismaError (code : string).

Inductive Outcome (A : Type) :=
| Returned (a : A)
| Threw (e : Thrown).
Arguments Returned {A} a.
Arguments Threw {A} e.

(** A database action: it starts from a table and ends with an outcome and
    the table as the action left it.  The table is kept on a throw too, so
    that [transaction] below decides what becomes of the writes. *)
Definition Tx (A : Type) : Type := Table -> Outcome A * Table.

Definition ret {A} (a : A) : Tx A := fun t => (Returned a, t).
Definition throw {A} (e : Thrown) : Tx A := fun t => (Threw e, t).
Definition bind {A B} (m : Tx A) (k : A -> Tx B) : Tx B := fun t =>
  match m t with
  | (Returned a, t') => k a t'
  | (Threw e, t') => (Threw e, t')
  end.

Notation "'await' x <- m ; k" := (bind m (fun x => k))
  (at level 10, x name, m at level 100, k at level 200).

Definition by_id (i : string) (r : RefreshToken) : bool := String.eqb (id r) i.
Definition by_tokenHash (h : string) (r : RefreshToken) : bool :=
  String.eqb (tokenHash r) h.
Definition by_userId (u : string) (r : RefreshToken) : bool :=
  String.eqb (userId r) u.

(** [data: { revoked: true }], the only update the repository ever writes. *)
Definition revoked_true (r : RefreshToken) : RefreshToken :=
  {| id := id r; userId := userId r; tokenHash := tokenHash r;
     expiresAt := expiresAt r; revoked := true |}.

(** [refreshToken.findUnique({ where })] on a unique column. *)
Definition findUnique (where_ : RefreshToken -> bool) : Tx (option RefreshToken) :=
  fun t => (Returned (find where_ t), t).

(** [refreshToken.create({ data: { userId, tokenHash, expiresAt } })].  The
    primary key [newId] is generated by the database and [revoked] takes its
    default.  Both [id] and [tokenHash] are unique columns.  The row is
    taken to be inserted for a user that has a row in the user table; for
    any other [userId] the database refuses the insert (the foreign-key
    error [P2003]), and that path is not modelled. *)
Definition create (newId userId_ tokenHash_ : string) (expiresAt_ : Z)
  : Tx RefreshToken := fun t =>
  if existsb (by_id newId) t || existsb (by_tokenHash tokenHash_) t
  then (Threw (PrismaError "P2002"), t)
  else
    let r := {| id := newId; userId := userId_; tokenHash := tokenHash_;
                expiresAt := expiresAt_; revoked := false |} in
    (Returned r, (t ++ [r])%list).

(** The row addressed by a unique [where: { id }], rewritten in place. *)
Fixpoint update_row (i : string) (t : Table) : Table :=
  match t with
  | [] => []
  | r :: t' => if by_id i r then revoked_true r :: t' else r :: update_row i t'
  end.

(** [refreshToken.update({ where: { id }, data: { revoked: true } })]. *)
Definition update (i : string) : Tx RefreshToken := fun t =>
  match find (by_id i) t with
  | Some r => (Returned (revoked_true r), update_row i t)
  | None => (Threw (PrismaError "P2025"), t)
  end.

(** [refreshToken.updateMany({ where, data: { revoked: true } })]; the
    result is [{ count }]. *)
Definition updateMany (where_ : RefreshToken -> bool) : Tx nat := fun t =>
  (Returned (length (List.filter where_ t)),
   map (fun r => if where_ r then revoked_true r else r) t).

(** [prisma.$transaction(async (tx) => body)], an interactive transaction:
    the writes made through [tx] are committed when the callback returns,
    and all of them are rolled back when it throws; the error is thrown on
    to the caller. *)
Definition transaction {A} (body : Tx A) : Tx A := fun t =>
  match body t with
  | (Returned a, t') => (Returned a, t')
  | (Threw e, _) => (Threw e, t)
  end.

(** ** [UserRepository]: the refresh-token methods *)

(** The three messages [rotateRefreshToken] throws. *)
Definition InvalidToken : Thrown := JsError "Invalid refresh token".
Definition ReuseDetected : Thrown := JsError "Refresh token reuse detected".
Definition Expired : Thrown := JsError "Refresh token expired".

(** [{ newRawToken: newRaw, newRecord }] *)
Record Rotated := mkRotated {
  newRawToken : string;
  newRecord : RefreshToken
}.

(** What a call of [rotateRefreshToken] reads from outside the table:
    [new Date()], [uuidv4()] and the key the database gives the new row. *)
Record Env := mkEnv {
  now : Z;
  uuid : string;
  rowId : string
}.

Section UserRepository.

(** [hashToken] of [../utils/tokens]. *)
Variable hashToken : string -> string.

Definition createRefreshToken (userId_ rawToken : string) (expiresAt_ : Z)
    (rowId_ : string) : Tx RefreshToken :=
  let tokenHash_ := hashToken rawToken in
  create rowId_ userId_ tokenHash_ expiresAt_.

(** The joined [user] row belongs to the user store and is left out. *)
Definition findRefreshTokenByRaw (rawToken : string) : Tx (option RefreshToken) :=
  let tokenHash_ := hashToken rawToken in
  findUnique (by_tokenHash tokenHash_).

(** The second argument, [opts], is never read. *)
Definition revokeRefreshTokenById (tokenId : string) : Tx RefreshToken :=
  update tokenId.

Definition revokeAllRefreshTokensForUser (userId_ : string) : Tx nat :=
  updateMany (fun r => by_userId userId_ r && negb (revoked r)).

(** The callback handed to [$transaction], every [tx] call in its order. *)
Definition rotateBody (oldHash userId_ : string) (newExpiresAt : Z) (env : Env)
  : Tx Rotated :=
  await oldRecord <- findUnique (by_tokenHash oldHash) ;
  match oldRecord with
  | None => throw InvalidToken
  | Some oldRecord =>
    if revoked oldRecord then
      await _ <- updateMany (by_userId userId_) ;
      throw ReuseDetected
    else if (expiresAt oldRecord <? now env)%Z then
      await _ <- update (id oldRecord) ;
      throw Expired
    else
      let newRaw := uuid env in
      let newHash := hashToken newRaw in
      await newRecord_ <- create (rowId env) userId_ newHash newExpiresAt ;
      await _ <- update (id oldRecord) ;
      ret {| newRawToken := newRaw; newRecord := newRecord_ |}
  end.

Definition rotateRefreshToken (oldRawToken userId_ : string) (newExpiresAt : Z)
    (env : Env) : Tx Rotated :=
  let oldHash := hashToken oldRawToken in
  transaction (rotateBody oldHash userId_ newExpiresAt env).

End UserRepository.

(** The [where] of [revokeAllRefreshTokensForUser]. *)
Definition live_of (u : string) (r : RefreshToken) : bool :=
  by_userId u r && negb (revoked r).

(** *** Names for what a rotation writes *)

(** The row [create] inserts for a rotation. *)
Definition rotatedRow (hashToken : string -> string) (userId_ : string)
    (newExpiresAt : Z) (env : Env) : RefreshToken :=
  {| id := rowId env; userId := userId_; tokenHash := hashToken (uuid env);
     expiresAt := newExpiresAt; revoked := false |}.

(** Whether the two unique columns refuse the new row. *)
Definition collides (hashToken : string -> string) (env : Env) (t : Table) : bool :=
  existsb (by_id (rowId env)) t
  || existsb (by_tokenHash (hashToken (uuid env))) t.

(** *** Comparing a table before and after an action *)

(** A row after an action, compared with the same row before it: either it
    is unchanged, or it was not revoked and is now the same row revoked. *)
Definition row_le (r r' : RefreshToken) : Prop :=
  r' = r \/ (revoked r = false /\ r' = revoked_true r).

(** A table after an action, compared with the table before it: every old
    row is still there, at its place, and [row_le] relates it to what it
    was; rows may have been added at the end. *)
Definition table_le (t t' : Table) : Prop :=
  exists t1 t2, t' = t1 ++ t2 /\ Forall2 row_le t t1.

(** An action that respects [table_le] wherever it stops, on a throw as
    well as on a return. *)
Definition monotone {A} (m : Tx A) : Prop := forall t, table_le t (snd (m t)).

(** The unique columns of the table: the primary key and the hash. *)
Definition well_formed (t : Table) : Prop :=
  List.NoDup (map id t) /\ List.NoDup (map tokenHash t).

(** *** The calls of the token core *)

Inductive Call :=
| CreateRefreshToken (userId_ rawToken : string) (expiresAt_ : Z) (rowId_ : string)
| FindRefreshTokenByRaw (rawToken : string)
| RevokeRefreshTokenById (tokenId : string)
| RevokeAllRefreshTokensForUser (userId_ : string)
| RotateRefreshToken (oldRawToken userId_ : string) (newExpiresAt : Z) (env : Env).

(** The table a call leaves behind. *)
Definition after (hashToken : string -> string) (c : Call) (t : Table) : Table :=
  match c with
  | CreateRefreshToken u raw e i => snd (createRefreshToken hashToken u raw e i t)
  | FindRefreshTokenByRaw raw => snd (findRefreshTokenByRaw hashToken raw t)
  | RevokeRefreshTokenById i => snd (revokeRefreshTokenById i t)
  | RevokeAllRefreshTokensForUser u => snd (revokeAllRefreshTokensForUser u t)
  | RotateRefreshToken old u e env => snd (rotateRefreshToken hashToken old u e env t)
  end.

(** The table after a run of calls, the first of the list first. *)
Definition after_all (hashToken : string -> string) (cs : list Call) (t : Table)
  : Table := fold_left (fun t c => after hashToken c t) cs t.

(** *** The ownership check the specification asks of a rotation *)

(** A rotation that returns found, under the old hash, a row of [userId_]
    that was neither revoked nor expired. *)
Definition rotation_checks_owner (hashToken : string -> string) : Prop :=
  forall oldRawToken userId_ newExpiresAt env t res t',
    rotateRefreshToken hashToken oldRawToken userId_ newExpiresAt env t
      = (Returned res, t') ->
    exists r,
      find (by_tokenHash (hashToken oldRawToken)) t = Some r
      /\ userId r = userId_
      /\ revoked r = false
      /\ (now env <= expiresAt r)%Z.

(** ** [config.cookie] and the handlers of [user.controller.ts] *)

Record CookieConfig := mkCookieConfig {
  accessCookieName : string;
  refreshCookieName : string;
  secure : bool;
  sameSite : string
}.

(** [production] stands for [process.env.NODE_ENV === "production"]. *)
Definition config_cookie (production : bool) : CookieConfig :=
  {| accessCookieName := "access_token";
     refreshCookieName := "refresh_token";
     secure := production;
     sameSite := if production then "none" else "lax" |}.

Definition ACCESS_MS : Z := 15 * 60 * 1000.

(** [days] stands for [config.refreshTokenExpiresDays], taken as a whole
    number; the source multiplies the doubles of JavaScript. *)
Definition REFRESH_MS (days : Z) : Z := days * 24 * 60 * 60 * 1000.

(** The options object of [res.cookie]. *)
Record CookieOptions := mkCookieOptions {
  opt_httpOnly : bool;
  opt_secure : bool;
  opt_sameSite : string;
  opt_path : string;
  opt_maxAge : Z
}.

(** [error.message].  For a client error the code stands in for the text
    of the message, which is Prisma's. *)
Definition message (e : Thrown) : string :=
  match e with
  | JsError m => m
  | PrismaError code => code
  end.

(** What a handler does, in order: the calls on [res], on [console] and on
    [userService.logout].  A JSON body is its [message] and, when it has a
    [user] object, the user with the names of the fields copied. *)
Inductive Effect (User : Type) :=
| ResCookie (name value : string) (options : CookieOptions)
| ResClearCookie (name : string) (path : option string)
| ResStatus (code : nat)
| ResJson (msg : string) (user : option (User * list string))
| ConsoleError (label : string) (e : Thrown)
| UserServiceLogout (refreshToken : string).
Arguments ResCookie {User} name value options.
Arguments ResClearCookie {User} name path.
Arguments ResStatus {User} code.
Arguments ResJson {User} msg user.
Arguments ConsoleError {User} label e.
Arguments UserServiceLogout {User} refreshToken.

(** [{ user, accessToken, refreshToken }] of [userService.signUp] and
    [userService.signIn]. *)
Record Session (User : Type) := mkSession {
  user : User;
  accessToken : string;
  refreshToken : string
}.
Arguments mkSession {User} user accessToken refreshToken.
Arguments user {User} s.
Arguments accessToken {User} s.
Arguments refreshToken {User} s.

Section UserController.

Variables User Data : Type.

(** [process.env.NODE_ENV === "production"] and
    [config.refreshTokenExpiresDays]. *)
Variable production : bool.
Variable refreshTokenExpiresDays : Z.

Definition cookieOptions (maxAge_ : Z) : CookieOptions :=
  {| opt_httpOnly := true;
     opt_secure := secure (config_cookie production);
     opt_sameSite := sameSite (config_cookie production);
     opt_path := "/";
     opt_maxAge := maxAge_ |}.

(** The two [res.cookie] calls [signUp] and [signIn] share. *)
Definition setSessionCookies (s : Session User) : list (Effect User) :=
  [ ResCookie (accessCookieName (config_cookie production)) (accessToken s)
      (cookieOptions ACCESS_MS);
    ResCookie (refreshCookieName (config_cookie production)) (refreshToken s)
      (cookieOptions (REFRESH_MS refreshTokenExpiresDays)) ].

(** [validation] is [schemas.SignupInput.safeParse(req.body)], [Some data]
    when it succeeded. *)
Definition signUp (validation : option Data)
    (userService_signUp : Data -> Outcome (Session User)) : list (Effect User) :=
  match validation with
  | None => [ResStatus 422; ResJson "Invalid input data" None]
  | Some data =>
    match userService_signUp data with
    | Returned s =>
      setSessionCookies s ++
      [ ResStatus 201;
        ResJson "User successfully created"
          (Some (user s, ["id"; "firstName"; "lastName"; "email"; "role"; "avatar"])) ]
    | Threw error =>
      let status := if String.eqb (message error) "User already exists!"
                    then 409%nat else 500%nat in
      [ResStatus status; ResJson (message error) None]
    end
  end.

Definition signIn (validation : option Data)
    (userService_signIn : Data -> Outcome (Session User)) : list (Effect User) :=
  match validation with
  | None => [ResStatus 422; ResJson "Invalid input" None]
  | Some data =>
    match userService_signIn data with
    | Returned s =>
      setSessionCookies s ++
      [ ResStatus 200;
        ResJson "Logged in" (Some (user s, ["id"; "email"; "role"])) ]
    | Threw error => [ResStatus 401; ResJson (message error) None]
    end
  end.

(** A JavaScript string is truthy unless it is empty. *)
Definition truthy (s : string) : bool := negb (String.eqb s "").

(** The [finally] block of [logout], as the source has it.  It runs after
    the response is sent, where express refuses to set a header, so these
    calls tell what the handler asks for, not what the client receives. *)
Definition clearCookies : list (Effect User) :=
  [ ResClearCookie "accessToken" None;
    ResClearCookie "refreshToken" (Some "/api/v1/auth") ].

(** [cookies] is [req.cookies]. *)
Definition logout (cookies : gmap string string)
    (userService_logout : string -> Outcome unit) : list (Effect User) :=
  let refreshToken_ := cookies !! "refreshToken" in
  let tryCatch :=
    match refreshToken_ with
    | Some tok =>
      if truthy tok then
        match userService_logout tok with
        | Returned _ =>
          [UserServiceLogout tok; ResStatus 200; ResJson "Logged out successfully" None]
        | Threw error =>
          [ UserServiceLogout tok; ConsoleError "Logout Error:" error;
            ResStatus 200; ResJson "Logged out (Server cleanup failed)" None ]
        end
      else [ResStatus 200; ResJson "Logged out successfully" None]
    | None => [ResStatus 200; ResJson "Logged out successfully" None]
    end in
  tryCatch ++ clearCookies.

(** The cookies of a client that had none and received the [res.cookie]
    calls of [es]: what its next request carries in [req.cookies].  Only
    [res.cookie] is read, so this is the client's cookies for a list
    without [res.clearCookie], as those of [signUp] and [signIn] are. *)
Definition cookiesSetBy (es : list (Effect User)) : gmap string string :=
  fold_left (fun jar e =>
    match e with
    | ResCookie name value _ => <[name := value]> jar
    | _ => jar
    end) es ∅.

(** The calls of [userService.logout] among the effects of a handler. *)
Definition logoutCalls (es : list (Effect User)) : list string :=
  omap (fun e => match e with UserServiceLogout tok => Some tok | _ => None end) es.

End UserController.

(** ** The other handlers of [user.controller.ts] *)

(** The [TypeError] of reading [id] of an undefined [req.user]. *)
Definition undefinedUserError : Thrown :=
  JsError "Cannot read properties of undefined (reading 'id')".

Section OtherHandlers.

Variables User Data : Type.
Variable production : bool.

(** [cookies] is [req.cookies]; the service answers [{ accessToken }].  No
    [res.status] is called before [res.json] when the refresh succeeds. *)
Definition refresh (cookies : gmap string string)
    (userService_refreshAccessToken : string -> Outcome string)
  : list (Effect User) :=
  let incomingRefreshToken := cookies !! "refresh_token" in
  match incomingRefreshToken with
  | None => [ResStatus 401; ResJson "Refresh Token Missing" None]
  | Some tok =>
    if negb (truthy tok) then [ResStatus 401; ResJson "Refresh Token Missing" None]
    else
      match userService_refreshAccessToken tok with
      | Returned accessToken_ =>
        [ ResCookie "accessToken" accessToken_
            {| opt_httpOnly := true; opt_secure := production;
               opt_sameSite := "strict"; opt_path := "/";
               opt_maxAge := ACCESS_MS |};
          ResJson "Access token refreshed" None ]
      | Threw _ =>
        [ ResClearCookie "accessToken" None;
          ResClearCookie "refreshToken" (Some "/api/v1/auth");
          ResStatus 403;
          ResJson "Invalid Refresh Token, please login again" None ]
      end
  end.

(** [validation] is [schemas.UpdateProfileInput.safeParse(req.body)],
    [reqUser] is the [id] of [req.user] when the request has one, and the
    service answers [{ token }]. *)
Definition updateProfile (validation : option Data) (reqUser : option string)
    (userService_updateProfile : string -> Data -> Outcome string)
  : list (Effect User) :=
  match validation with
  | None => [ResStatus 422; ResJson "Invalid profile data" None]
  | Some data =>
    let result :=
      match reqUser with
      | Some currentUser_id => userService_updateProfile currentUser_id data
      | None => Threw undefinedUserError
      end in
    match result with
    | Returned token =>
      [ ResCookie (accessCookieName (config_cookie production)) token
          (cookieOptions production ACCESS_MS);
        ResStatus 200; ResJson "User profile updated" None ]
    | Threw error => [ResStatus 500; ResJson (message error) None]
    end
  end.

(** The names of the cookies a handler clears. *)
Definition clearedNames (es : list (Effect User)) : list string :=
  omap (fun e => match e with ResClearCookie name _ => Some name | _ => None end) es.

(** The status codes a handler sets. *)
Definition statusCodes (es : list (Effect User)) : list nat :=
  omap (fun e => match e with ResStatus code => Some code | _ => None end) es.

End OtherHandlers.

(** ** The [user] table and the user methods of [UserRepository] *)

Module UserTable.

(** The nested [Account: { create: { balance, locked, version } }]. *)
Record AccountRow := mkAccount {
  balance : Z;
  locked : Z;
  version : Z
}.

(** A row of the table with the columns these sources name.  The Prisma
    schema is not among the sources: [id] is taken as the primary key and
    [email] as a unique column (it is the key of [findUnique]). *)
Record User := mkUser {
  id : string;
  email : string;
  firstName : string;
  lastName : string;
  avatar : option string;
  role : string;
  status : string;
  Account : option AccountRow
}.

(** [AuthProvider] of [@prisma/client], with the two values the source
    names. *)
Inductive AuthProvider := GOOGLE | GITHUB.

Definition by_id (i : string) (u : User) : bool := String.eqb (id u) i.
Definition by_email (e : string) (u : User) : bool := String.eqb (email u) e.

Definition findByEmail (email_ : string) (users : list User) : option User :=
  find (by_email email_) users.

Definition findById (id_ : string) (users : list User) : option User :=
  find (by_id id_) users.

(** [prisma.user.create({ data })] with the primary key [newId] generated
    by the database. *)
Definition create (row : User) (users : list User) : Outcome User * list User :=
  if existsb (by_id (id row)) users || existsb (by_email (email row)) users
  then (Threw (PrismaError "P2002"), users)
  else (Returned row, users ++ [row]).

(** [data.provider] is not written to the row. *)
Definition findOrCreateOAuthUser (email_ firstName_ lastName_ : string)
    (avatar_ : option string) (provider : AuthProvider) (newId : string)
    (users : list User) : Outcome User * list User :=
  match findByEmail email_ users with
  | Some existingUser => (Returned existingUser, users)
  | None =>
    create {| id := newId; email := email_; firstName := firstName_;
              lastName := lastName_; avatar := avatar_;
              role := "USER"; status := "ACTIVE";
              Account := Some {| balance := 0; locked := 0; version := 0 |} |}
      users
  end.

(** One sign-in through a provider: the arguments of
    [findOrCreateOAuthUser] and the key the database would generate. *)
Record OAuthCall := mkOAuthCall {
  call_email : string;
  call_firstName : string;
  call_lastName : string;
  call_avatar : option string;
  call_provider : AuthProvider;
  call_newId : string
}.

Definition run (c : OAuthCall) (users : list User) : Outcome User * list User :=
  findOrCreateOAuthUser (call_email c) (call_firstName c) (call_lastName c)
    (call_avatar c) (call_provider c) (call_newId c) users.

(** The table after a run of sign-ins, the first of the list first. *)
Definition after_all (cs : list OAuthCall) (users : list User) : list User :=
  fold_left (fun us c => snd (run c us)) cs users.

Definition well_formed (users : list User) : Prop :=
  List.NoDup (map id users) /\ List.NoDup (map email users).

End UserTable.

(** The cookie calls of a handler in their order: the name with the value
    of a [res.cookie], the name alone of a [res.clearCookie]. *)
Definition cookieCalls (User : Type) (es : list (Effect User))
  : list (string * option string) :=
  omap (fun e =>
    match e with
    | ResCookie name value _ => Some (name, Some value)
    | ResClearCookie name _ => Some (name, None)
    | _ => None
    end) es.

(** The body of the answer of [getMe]: [{ message }] or [{ user }]. *)
Inductive GetMeBody :=
| GetMeMessage (msg : string)
| GetMeUser (found : UserTable.User).

(** [reqUser] is the [id] of [req.user] when the request has one; the
    answer is the status and the body of the one [res.status(..).json(..)]
    the handler makes. *)
Definition getMe (reqUser : option string) (users : list UserTable.User)
  : nat * GetMeBody :=
  match reqUser with
  | None => (401%nat, GetMeMessage "Not logged in")
  | Some userFromAuth_id =>
    match UserTable.findById userFromAuth_id users with
    | None => (404%nat, GetMeMessage "User no longer exists")
    | Some found => (200%nat, GetMeUser found)
    end
  end.

(** *** Counting live tokens *)

(** The rows of [u] that are not revoked. *)
Definition live_rows (u : string) (t : Table) : list RefreshToken :=
  List.filter (live_of u) t.

(** ** Concrete data to run the methods on *)

(** A stand-in for [hashToken]. *)
Definition demoHash (raw : string) : string := ("h:" ++ raw)%string.

(** A stand-in for [hashToken] under which two raw secrets meet. *)
Definition shortHash (raw : string) : string := String.substring 0 2 raw.

Definition demoTable : Table :=
  [ {| id := "t0"; userId := "alice"; tokenHash := "h:s0"; expiresAt := 100; revoked := true |};
    {| id := "t1"; userId := "alice"; tokenHash := "h:s1"; expiresAt := 100; revoked := false |};
    {| id := "t2"; userId := "bob"; tokenHash := "h:s2"; expiresAt := 100; revoked := false |};
    {| id := "t3"; userId := "alice"; tokenHash := "h:s3"; expiresAt := 10; revoked := false |} ].

Definition demoEnv : Env := {| now := 50; uuid := "s9"; rowId := "t9" |}.

(** [demoTable] after alice has rotated the token [s1] in [demoEnv], asking
    for the expiry 200. *)
Definition demoRotated : Table :=
  [ {| id := "t0"; userId := "alice"; tokenHash := "h:s0"; expiresAt := 100; revoked := true |};
    {| id := "t1"; userId := "alice"; tokenHash := "h:s1"; expiresAt := 100; revoked := true |};
    {| id := "t2"; userId := "bob"; tokenHash := "h:s2"; expiresAt := 100; revoked := false |};
    {| id := "t3"; userId := "alice"; tokenHash := "h:s3"; expiresAt := 10; revoked := false |};
    {| id := "t9"; userId := "alice"; tokenHash := "h:s9"; expiresAt := 200; revoked := false |} ].

Definition demoEnv2 : Env := {| now := 60; uuid := "s10"; rowId := "t10" |}.

Definition demoUsers : list UserTable.User :=
  [ UserTable.mkUser "u1" "alice@example.org" "Alice" "A" None "ADMIN" "ACTIVE" None;
    UserTable.mkUser "u2" "bob@example.org" "Bob" "B" (Some "bob.png") "USER" "ACTIVE"
      (Some (UserTable.mkAccount 5 0 3)) ].

Definition demoSession : Session nat := mkSession 1%nat "access-1" "refresh-1".

(** ** Elementary facts about the table operations *)

Lemma by_id_true i r : by_id i r = true <-> id r = i.
Proof. unfold by_id. apply String.eqb_eq. Qed.

Lemma by_tokenHash_true h r : by_tokenHash h r = true <-> tokenHash r = h.
Proof. unfold by_tokenHash. apply String.eqb_eq. Qed.

Lemma by_userId_true u r : by_userId u r = true <-> userId r = u.
Proof. unfold by_userId. apply String.eqb_eq. Qed.

Lemma by_id_revoked_true i r : by_id i (revoked_true r) = by_id i r.
Proof. reflexivity. Qed.

Lemma by_tokenHash_revoked_true h r :
  by_tokenHash h (revoked_true r) = by_tokenHash h r.
Proof. reflexivity. Qed.

Lemma revoked_true_idem r : revoked_true (revoked_true r) = revoked_true r.
Proof. reflexivity. Qed.

Lemma revoked_true_fix r : revoked r = true -> revoked_true r = r.
Proof. destruct r as [i u h e v]; simpl; intros ->; reflexivity. Qed.

Lemma find_existsb {A} (p : A -> bool) (l : list A) :
  existsb p l = true <-> find p l <> None.
Proof.
  induction l as [|x l IH]; simpl.
  - split; [discriminate | congruence].
  - destruct (p x); simpl; [split; [discriminate | reflexivity] | exact IH].
Qed.

Lemma find_app_Some {A} (p : A -> bool) (l l' : list A) x :
  find p l = Some x -> find p (l ++ l') = Some x.
Proof.
  induction l as [|y l IH]; simpl; [discriminate|].
  destruct (p y); [auto | exact IH].
Qed.

Lemma find_app_None {A} (p : A -> bool) (l l' : list A) :
  find p l = None -> find p (l ++ l') = find p l'.
Proof.
  induction l as [|y l IH]; simpl; [reflexivity|].
  destruct (p y); [discriminate | exact IH].
Qed.

Lemma update_row_app i t t' :
  existsb (by_id i) t = true -> update_row i (t ++ t') = update_row i t ++ t'.
Proof.
  induction t as [|r t IH]; simpl; [discriminate|].
  destruct (by_id i r); simpl; [reflexivity|].
  intros H. f_equal. auto.
Qed.

(** ** [rotateRefreshToken], branch by branch *)


Lemma rotate_cases hashToken oldRaw u exp env t :
  rotateRefreshToken hashToken oldRaw u exp env t =
  match find (by_tokenHash (hashToken oldRaw)) t with
  | None => (Threw InvalidToken, t)
  | Some r =>
    if revoked r then (Threw ReuseDetected, t)
    else if (expiresAt r <? now env)%Z then (Threw Expired, t)
    else if collides hashToken env t then (Threw (PrismaError "P2002"), t)
    else (Returned {| newRawToken := uuid env;
                      newRecord := rotatedRow hashToken u exp env |},
          (update_row (id r) t ++ [rotatedRow hashToken u exp env])%list)
  end.
Proof.
  unfold rotateRefreshToken, transaction, rotateBody, bind, findUnique.
  destruct (find (by_tokenHash (hashToken oldRaw)) t) as [r|] eqn:Hfind;
    [|reflexivity].
  assert (Hid : find (by_id (id r)) t <> None).
  { apply find_existsb, existsb_exists. exists r.
    apply find_some in Hfind as [Hin _]. split; [exact Hin|]. by apply by_id_true. }
  destruct (revoked r); [reflexivity|].
  destruct (expiresAt r <? now env)%Z.
  { unfold update. destruct (find (by_id (id r)) t); [reflexivity|done]. }
  unfold create, collides, rotatedRow.
  destruct (existsb (by_id (rowId env)) t
            || existsb (by_tokenHash (hashToken (uuid env))) t); [reflexivity|].
  unfold update, ret.
  destruct (find (by_id (id r)) t) as [r0|] eqn:E; [|done].
  rewrite (find_app_Some _ _ _ _ E).
  rewrite update_row_app; [reflexivity|].
  apply find_existsb. congruence.
Qed.


(** ** The [revoked] column only goes from [false] to [true] *)


Lemma row_le_refl r : row_le r r.
Proof. by left. Qed.

Lemma row_le_revoked_true r : row_le r (revoked_true r).
Proof.
  destruct (revoked r) eqn:E.
  - left. by apply revoked_true_fix.
  - by right.
Qed.

Lemma row_le_trans r1 r2 r3 : row_le r1 r2 -> row_le r2 r3 -> row_le r1 r3.
Proof.
  intros [->|[H1 ->]] [->|[H2 ->]]; try (by left); by right.
Qed.

Lemma row_le_revoked r r' : row_le r r' -> revoked r = true -> revoked r' = true.
Proof. intros [->|[H ->]] Hr; [exact Hr | reflexivity]. Qed.

Lemma row_le_columns r r' :
  row_le r r' ->
  id r' = id r /\ userId r' = userId r /\ tokenHash r' = tokenHash r
  /\ expiresAt r' = expiresAt r.
Proof. intros [->|[_ ->]]; repeat split. Qed.

Lemma rows_le_refl t : Forall2 row_le t t.
Proof. induction t; constructor; [apply row_le_refl | assumption]. Qed.

Lemma rows_le_update_row i t : Forall2 row_le t (update_row i t).
Proof.
  induction t as [|r t IH]; simpl; [constructor|].
  destruct (by_id i r); constructor;
    auto using row_le_refl, row_le_revoked_true, rows_le_refl.
Qed.

Lemma rows_le_map (w : RefreshToken -> bool) t :
  Forall2 row_le t (map (fun r => if w r then revoked_true r else r) t).
Proof.
  induction t as [|r t IH]; simpl; constructor; [|exact IH].
  destruct (w r); auto using row_le_refl, row_le_revoked_true.
Qed.

Lemma table_le_rows t t' : Forall2 row_le t t' -> table_le t t'.
Proof. intros H. exists t', []. by rewrite app_nil_r. Qed.

Lemma table_le_refl t : table_le t t.
Proof. apply table_le_rows, rows_le_refl. Qed.

Lemma table_le_app t l : table_le t (t ++ l).
Proof. exists t, l. split; [reflexivity | apply rows_le_refl]. Qed.

Lemma table_le_trans t1 t2 t3 : table_le t1 t2 -> table_le t2 t3 -> table_le t1 t3.
Proof.
  intros (a & b & -> & Ha) (c & d & -> & Hc).
  apply Forall2_app_inv_l in Hc as (c1 & c2 & Hc1 & _ & ->).
  exists c1, (c2 ++ d). split; [by rewrite app_assoc|].
  eapply Forall2_trans; [|exact Ha|exact Hc1].
  intros x y z. apply row_le_trans.
Qed.

Lemma monotone_ret {A} (a : A) : monotone (ret a).
Proof. intros t. apply table_le_refl. Qed.

Lemma monotone_throw {A} e : monotone (@throw A e).
Proof. intros t. apply table_le_refl. Qed.

Lemma monotone_bind {A B} (m : Tx A) (k : A -> Tx B) :
  monotone m -> (forall a, monotone (k a)) -> monotone (bind m k).
Proof.
  intros Hm Hk t. unfold bind. specialize (Hm t).
  destruct (m t) as [[a|e] t']; simpl in *; [|exact Hm].
  eapply table_le_trans; [exact Hm | apply Hk].
Qed.

Lemma monotone_transaction {A} (body : Tx A) :
  monotone body -> monotone (transaction body).
Proof.
  intros Hb t. unfold transaction. specialize (Hb t).
  destruct (body t) as [[a|e] t']; simpl in *; [exact Hb | apply table_le_refl].
Qed.

Lemma monotone_findUnique w : monotone (findUnique w).
Proof. intros t. apply table_le_refl. Qed.

Lemma monotone_create i u h e : monotone (create i u h e).
Proof.
  intros t. unfold create.
  destruct (existsb (by_id i) t || existsb (by_tokenHash h) t); simpl;
    [apply table_le_refl | apply table_le_app].
Qed.

Lemma monotone_update i : monotone (update i).
Proof.
  intros t. unfold update. destruct (find (by_id i) t); simpl;
    [apply table_le_rows, rows_le_update_row | apply table_le_refl].
Qed.

Lemma monotone_updateMany w : monotone (updateMany w).
Proof. intros t. apply table_le_rows, rows_le_map. Qed.

Lemma monotone_rotateBody hashToken oldHash u exp env :
  monotone (rotateBody hashToken oldHash u exp env).
Proof.
  unfold rotateBody.
  apply monotone_bind; [apply monotone_findUnique|].
  intros [r|]; [|apply monotone_throw].
  destruct (revoked r).
  { apply monotone_bind; [apply monotone_updateMany | intros; apply monotone_throw]. }
  destruct (expiresAt r <? now env)%Z.
  { apply monotone_bind; [apply monotone_update | intros; apply monotone_throw]. }
  apply monotone_bind; [apply monotone_create|]. intros n.
  apply monotone_bind; [apply monotone_update | intros; apply monotone_ret].
Qed.


Lemma after_le hashToken c t : table_le t (after hashToken c t).
Proof.
  destruct c; unfold after.
  - apply (monotone_create rowId_ userId_ (hashToken rawToken) expiresAt_).
  - apply (monotone_findUnique (by_tokenHash (hashToken rawToken))).
  - apply (monotone_update tokenId).
  - apply (monotone_updateMany (fun r => by_userId userId_ r && negb (revoked r))).
  - apply (monotone_transaction _ (monotone_rotateBody _ _ _ _ _)).
Qed.

Lemma after_all_le hashToken cs t : table_le t (after_all hashToken cs t).
Proof.
  revert t. induction cs as [|c cs IH]; intros t; simpl.
  - apply table_le_refl.
  - eapply table_le_trans; [apply after_le | apply IH].
Qed.

(** A revoked row found under a hash is found revoked ever after. *)
Lemma find_revoked_le h t t' r :
  table_le t t' ->
  find (by_tokenHash h) t = Some r -> revoked r = true ->
  exists r', find (by_tokenHash h) t' = Some r' /\ revoked r' = true.
Proof.
  intros (t1 & t2 & -> & H). revert r. induction H as [|x y l k Hxy H IH];
    intros r Hfind Hrev; simpl in *; [discriminate|].
  destruct (row_le_columns _ _ Hxy) as (_ & _ & Hh & _).
  unfold by_tokenHash in *. rewrite Hh.
  destruct (String.eqb (tokenHash x) h).
  - injection Hfind as ->. exists y. split; [reflexivity|].
    by apply (row_le_revoked r).
  - by apply (IH r).
Qed.

(** ** The unique columns *)

Lemma existsb_by_id i t : existsb (by_id i) t = true <-> In i (map id t).
Proof.
  rewrite existsb_exists, in_map_iff. split.
  - intros (r & Hin & H). exists r. split; [by apply by_id_true | exact Hin].
  - intros (r & H & Hin). exists r. split; [exact Hin | by apply by_id_true].
Qed.

Lemma existsb_by_tokenHash h t :
  existsb (by_tokenHash h) t = true <-> In h (map tokenHash t).
Proof.
  rewrite existsb_exists, in_map_iff. split.
  - intros (r & Hin & H). exists r. split; [by apply by_tokenHash_true | exact Hin].
  - intros (r & H & Hin). exists r. split; [exact Hin | by apply by_tokenHash_true].
Qed.

Lemma rows_le_columns t t' :
  Forall2 row_le t t' -> map id t' = map id t /\ map tokenHash t' = map tokenHash t.
Proof.
  induction 1 as [|x y l k Hxy _ [IH1 IH2]]; simpl; [done|].
  destruct (row_le_columns _ _ Hxy) as (-> & _ & -> & _). by rewrite IH1, IH2.
Qed.

Lemma well_formed_rows_le t t' :
  Forall2 row_le t t' -> well_formed t -> well_formed t'.
Proof.
  intros H [Hi Hh]. destruct (rows_le_columns _ _ H) as [Ei Eh].
  split; [by rewrite Ei | by rewrite Eh].
Qed.

Lemma NoDup_snoc {A} (l : list A) x :
  List.NoDup l -> ~ In x l -> List.NoDup (l ++ [x]).
Proof.
  induction 1 as [|y l Hy Hl IH]; simpl; intros Hx.
  - constructor; [intros [] | constructor].
  - constructor.
    + rewrite in_app_iff. intros [H|[H|[]]]; [by apply Hy | subst; apply Hx; by left].
    + apply IH. intros H. apply Hx. by right.
Qed.

Lemma well_formed_snoc t r :
  well_formed t ->
  existsb (by_id (id r)) t || existsb (by_tokenHash (tokenHash r)) t = false ->
  well_formed (t ++ [r]).
Proof.
  intros [Hi Hh] Hfresh. apply orb_false_iff in Hfresh as [Fi Fh].
  unfold well_formed. rewrite !map_app. simpl. split; apply NoDup_snoc; auto.
  - intros Hin. apply existsb_by_id in Hin. congruence.
  - intros Hin. apply existsb_by_tokenHash in Hin. congruence.
Qed.

Lemma well_formed_nil : well_formed [].
Proof. split; constructor. Qed.

(** Every call keeps the two columns unique. *)
Lemma well_formed_after hashToken c t :
  well_formed t -> well_formed (after hashToken c t).
Proof.
  intros Hwf. destruct c; unfold after.
  - unfold createRefreshToken, create.
    destruct (existsb (by_id rowId_) t || existsb _ t) eqn:E; simpl; [exact Hwf|].
    by apply well_formed_snoc.
  - exact Hwf.
  - unfold revokeRefreshTokenById, update. destruct (find (by_id tokenId) t); simpl;
      [|exact Hwf].
    eapply well_formed_rows_le; [apply rows_le_update_row | exact Hwf].
  - unfold revokeAllRefreshTokensForUser, updateMany. simpl.
    eapply well_formed_rows_le; [apply rows_le_map | exact Hwf].
  - rewrite rotate_cases.
    destruct (find (by_tokenHash (hashToken oldRawToken)) t) as [r|]; [|exact Hwf].
    destruct (revoked r); [exact Hwf|].
    destruct (expiresAt r <? now env)%Z; [exact Hwf|].
    destruct (collides hashToken env t) eqn:E; [exact Hwf|]. simpl.
    apply well_formed_snoc.
    + eapply well_formed_rows_le; [apply rows_le_update_row | exact Hwf].
    + unfold collides in E. simpl.
      destruct (rows_le_columns _ _ (rows_le_update_row (id r) t)) as [Ei Eh].
      apply orb_false_iff in E as [E1 E2]. apply orb_false_iff. split.
      * apply not_true_is_false. rewrite existsb_by_id, Ei, <- existsb_by_id. congruence.
      * apply not_true_is_false.
        rewrite existsb_by_tokenHash, Eh, <- existsb_by_tokenHash. congruence.
Qed.

Lemma well_formed_after_all hashToken cs t :
  well_formed t -> well_formed (after_all hashToken cs t).
Proof.
  revert t. induction cs as [|c cs IH]; intros t Hwf; simpl; [exact Hwf|].
  by apply IH, well_formed_after.
Qed.

(** With a unique primary key, the row a hash finds is the row its [id]
    updates. *)
Lemma find_update_row h t r :
  List.NoDup (map id t) ->
  find (by_tokenHash h) t = Some r ->
  find (by_tokenHash h) (update_row (id r) t) = Some (revoked_true r).
Proof.
  induction t as [|x t IH]; simpl; [discriminate|]. intros Hnd Hfind.
  apply List.NoDup_cons_iff in Hnd as [Hx Hnd].
  destruct (by_tokenHash h x) eqn:Hhx.
  - injection Hfind as ->.
    assert (by_id (id r) r = true) as -> by by apply by_id_true.
    simpl. by rewrite by_tokenHash_revoked_true, Hhx.
  - assert (by_id (id r) x = false) as ->.
    { apply not_true_is_false. intros E. apply by_id_true in E.
      apply Hx. rewrite E. apply in_map. by apply find_some in Hfind as [? _]. }
    simpl. rewrite Hhx. by apply IH.
Qed.

(** A row with another [id] is left as it is. *)
Lemma update_row_others i t x : In x t -> id x <> i -> In x (update_row i t).
Proof.
  induction t as [|y t IH]; simpl; [done|]. intros [->|Hin] Hne.
  - assert (by_id i x = false) as ->; [|by left].
    apply not_true_is_false. intros E. by apply by_id_true in E.
  - destruct (by_id i y); right; auto.
Qed.

Lemma find_fresh_snoc h t r :
  existsb (by_tokenHash h) t = false -> tokenHash r = h ->
  find (by_tokenHash h) (t ++ [r]) = Some r.
Proof.
  intros Hfresh Hh. rewrite find_app_None.
  - simpl. by assert (by_tokenHash h r = true) as -> by by apply by_tokenHash_true.
  - destruct (find (by_tokenHash h) t) eqn:E; [|done].
    assert (existsb (by_tokenHash h) t = true); [|congruence].
    apply find_existsb. congruence.
Qed.

(** A call that throws leaves the table as it found it. *)
Lemma rotate_threw hashToken old u exp env t e t' :
  rotateRefreshToken hashToken old u exp env t = (Threw e, t') -> t' = t.
Proof.
  unfold rotateRefreshToken, transaction.
  destruct (rotateBody _ _ _ _ _ t) as [[a|e0] t0]; congruence.
Qed.

Lemma update_row_app_absent i t l :
  existsb (by_id i) t = false -> update_row i (t ++ l) = t ++ update_row i l.
Proof.
  induction t as [|r t IH]; simpl; [reflexivity|].
  destruct (by_id i r); simpl; [discriminate|].
  intros H. f_equal. auto.
Qed.

Lemma demoTable_ids : List.NoDup (map id demoTable).
Proof.
  repeat constructor; simpl; intuition discriminate.
Qed.

(** ** Replay of a revoked token *)

(** C1 (the code departs from it).  A revoked row of alice is presented
    again by alice.  Inside the transaction every row of alice is revoked
    and [ReuseDetected] is thrown; the throw rolls the transaction back, so
    the call ends with the table it started from, in which a row of alice
    is not revoked. *)
Theorem reuse_cascade_rolled_back :
  rotateBody demoHash (demoHash "s0") "alice" 200 demoEnv demoTable
    = (Threw ReuseDetected,
       map (fun r => if by_userId "alice" r then revoked_true r else r) demoTable)
  /\ rotateRefreshToken demoHash "s0" "alice" 200 demoEnv demoTable
    = (Threw ReuseDetected, demoTable)
  /\ exists r, In r demoTable /\ userId r = "alice" /\ revoked r = false.
Proof.
  split; [reflexivity|]. split; [reflexivity|].
  exists {| id := "t1"; userId := "alice"; tokenHash := "h:s1";
            expiresAt := 100; revoked := false |}.
  split; [|split; reflexivity]. simpl. tauto.
Qed.

(** ** A token rotates once *)

(** C2.  A token is issued by [createRefreshToken].  The first rotation of
    its raw secret, made before it expires and with a fresh [uuidv4()] and
    row key, returns the new secret.  From then on, whatever calls are made
    in between, every rotation of the same raw secret throws
    [ReuseDetected], and leaves the table as it was. *)
Theorem issued_token_rotates_once hashToken u raw exp i t r t1 env newExp :
  createRefreshToken hashToken u raw exp i t = (Returned r, t1) ->
  (now env <= exp)%Z ->
  collides hashToken env t1 = false ->
  exists res t2,
    rotateRefreshToken hashToken raw u newExp env t1 = (Returned res, t2)
    /\ newRawToken res = uuid env
    /\ forall cs u' exp' env',
         rotateRefreshToken hashToken raw u' exp' env' (after_all hashToken cs t2)
         = (Threw ReuseDetected, after_all hashToken cs t2).
Proof.
  intros Hcreate Hnow Hfresh.
  unfold createRefreshToken, create in Hcreate.
  destruct (existsb (by_id i) t || existsb (by_tokenHash (hashToken raw)) t) eqn:E;
    [discriminate|].
  injection Hcreate as <- <-. apply orb_false_iff in E as [Ei Eh].
  set (r := {| id := i; userId := u; tokenHash := hashToken raw;
               expiresAt := exp; revoked := false |}) in *.
  assert (Hfind : find (by_tokenHash (hashToken raw)) (t ++ [r]) = Some r)
    by by apply find_fresh_snoc.
  rewrite rotate_cases, Hfind, Hfresh. simpl.
  assert ((exp <? now env)%Z = false) as -> by by apply Z.ltb_ge.
  eexists _, _. split; [reflexivity|]. split; [reflexivity|].
  intros cs u' exp' env'.
  set (t2 := update_row i (t ++ [r]) ++ [rotatedRow hashToken u newExp env]).
  assert (Hfind2 : find (by_tokenHash (hashToken raw)) t2 = Some (revoked_true r)).
  { subst t2. apply find_app_Some. rewrite update_row_app_absent by exact Ei.
    simpl. assert (by_id i r = true) as -> by by apply by_id_true.
    by apply find_fresh_snoc. }
  destruct (find_revoked_le _ _ _ _ (after_all_le hashToken cs t2) Hfind2 eq_refl)
    as (r' & Hr' & Hrev).
  by rewrite rotate_cases, Hr', Hrev.
Qed.

Lemma issued_token_rotates_once_witness :
  createRefreshToken demoHash "alice" "s0" 100 "t0" []
    = (Returned {| id := "t0"; userId := "alice"; tokenHash := "h:s0";
                   expiresAt := 100; revoked := false |},
       [ {| id := "t0"; userId := "alice"; tokenHash := "h:s0";
            expiresAt := 100; revoked := false |} ])
  /\ exists res t2,
    rotateRefreshToken demoHash "s0" "alice" 200 demoEnv
      [ {| id := "t0"; userId := "alice"; tokenHash := "h:s0";
           expiresAt := 100; revoked := false |} ] = (Returned res, t2)
    /\ newRawToken res = uuid demoEnv
    /\ forall cs u' exp' env',
         rotateRefreshToken demoHash "s0" u' exp' env' (after_all demoHash cs t2)
         = (Threw ReuseDetected, after_all demoHash cs t2).
Proof.
  split; [reflexivity|].
  eapply (issued_token_rotates_once demoHash "alice" "s0" 100 "t0" []);
    [reflexivity | vm_compute; discriminate | reflexivity].
Defined.

(** ** What a rotation checks *)

(** C3 as the specification has it fails: mallory rotates a live token of
    alice, and the call returns. *)
Lemma rotation_ignores_owner : ~ rotation_checks_owner demoHash.
Proof.
  intros H.
  destruct (H "s1" "mallory" 200%Z demoEnv demoTable _ _ eq_refl)
    as (r & Hfind & Hu & _).
  vm_compute in Hfind. injection Hfind as <-. discriminate.
Qed.

(** C3, amended.  A rotation returns only if the row found under the old
    hash is neither revoked nor expired.  The owner of that row is not
    compared with [userId_]; the new row is created for [userId_]. *)
Theorem rotation_checks_state hashToken oldRawToken userId_ newExpiresAt env t res t' :
  rotateRefreshToken hashToken oldRawToken userId_ newExpiresAt env t
    = (Returned res, t') ->
  exists r,
    find (by_tokenHash (hashToken oldRawToken)) t = Some r
    /\ revoked r = false
    /\ (now env <= expiresAt r)%Z
    /\ userId (newRecord res) = userId_.
Proof.
  rewrite rotate_cases.
  destruct (find (by_tokenHash (hashToken oldRawToken)) t) as [r|]; [|discriminate].
  destruct (revoked r) eqn:Hrev; [discriminate|].
  destruct (expiresAt r <? now env)%Z eqn:Hexp; [discriminate|].
  destruct (collides hashToken env t); [discriminate|].
  intros [= <- _]. exists r.
  split; [reflexivity|]. split; [exact Hrev|].
  split; [by apply Z.ltb_ge | reflexivity].
Qed.

Lemma rotation_checks_state_witness :
  exists r,
    find (by_tokenHash (demoHash "s1")) demoTable = Some r
    /\ revoked r = false
    /\ (now demoEnv <= expiresAt r)%Z
    /\ userId (rotatedRow demoHash "mallory" 200 demoEnv) = "mallory".
Proof.
  exact (rotation_checks_state demoHash "s1" "mallory" 200 demoEnv demoTable
           _ _ eq_refl).
Defined.

(** ** Expiry *)

(** C4 (the code departs from it).  An expired, unrevoked row of alice is
    presented.  Inside the transaction that row is revoked and [Expired] is
    thrown; the throw rolls the transaction back, so the call ends with the
    table it started from, in which the row is still not revoked. *)
Theorem expiry_cleanup_rolled_back :
  rotateBody demoHash (demoHash "s3") "alice" 200 demoEnv demoTable
    = (Threw Expired, update_row "t3" demoTable)
  /\ rotateRefreshToken demoHash "s3" "alice" 200 demoEnv demoTable
    = (Threw Expired, demoTable)
  /\ find (by_tokenHash (demoHash "s3")) demoTable
    = Some {| id := "t3"; userId := "alice"; tokenHash := "h:s3";
              expiresAt := 10; revoked := false |}.
Proof. repeat split. Qed.

(** ** A rotation is all or nothing *)

(** What a rotation that returns has written. *)
Lemma rotate_returned hashToken oldRawToken userId_ newExpiresAt env t res t' :
  List.NoDup (map id t) ->
  rotateRefreshToken hashToken oldRawToken userId_ newExpiresAt env t
    = (Returned res, t') ->
  exists r,
    find (by_tokenHash (hashToken oldRawToken)) t = Some r
    /\ revoked r = false
    /\ t' = update_row (id r) t ++ [newRecord res]
    /\ find (by_tokenHash (hashToken oldRawToken)) t' = Some (revoked_true r)
    /\ (forall x, In x t -> id x <> id r -> In x t')
    /\ newRecord res
       = {| id := rowId env; userId := userId_;
            tokenHash := hashToken (newRawToken res);
            expiresAt := newExpiresAt; revoked := false |}
    /\ find (by_tokenHash (hashToken (newRawToken res))) t'
       = Some (newRecord res).
Proof.
  intros Hnd. rewrite rotate_cases.
  destruct (find (by_tokenHash (hashToken oldRawToken)) t) as [r|] eqn:Hfind;
    [|discriminate].
  destruct (revoked r) eqn:Hrev; [discriminate|].
  destruct (expiresAt r <? now env)%Z; [discriminate|].
  destruct (collides hashToken env t) eqn:Hc; [discriminate|].
  intros [= <- <-]. exists r. simpl.
  split; [reflexivity|]. split; [exact Hrev|]. split; [reflexivity|].
  split; [by apply find_app_Some, find_update_row|].
  split; [intros x Hx Hne; apply in_or_app; left; by apply update_row_others|].
  split; [reflexivity|].
  apply find_fresh_snoc; [|reflexivity].
  apply orb_false_iff in Hc as [_ Hh]. apply not_true_is_false.
  destruct (rows_le_columns _ _ (rows_le_update_row (id r) t)) as [_ Eh].
  rewrite existsb_by_tokenHash, Eh, <- existsb_by_tokenHash. congruence.
Qed.

Lemma update_row_length i t : length (update_row i t) = length t.
Proof.
  induction t as [|r t IH]; simpl; [reflexivity|].
  destruct (by_id i r); simpl; congruence.
Qed.

Lemma update_row_lookup_other i (t : list RefreshToken) (n : nat) x :
  t !! n = Some x -> id x <> i -> update_row i t !! n = Some x.
Proof.
  revert n. induction t as [|y t IH]; intros [|n]; simpl; try done.
  - intros [= ->] Hne. assert (by_id i x = false) as ->; [|done].
    apply not_true_is_false. intros E. by apply by_id_true in E.
  - intros Hn Hne. destruct (by_id i y); simpl; [exact Hn | by apply IH].
Qed.

(** A rotation that returns keeps the primary key unique. *)
Lemma rotate_returned_ids hashToken oldRawToken userId_ newExpiresAt env t res t' :
  List.NoDup (map id t) ->
  rotateRefreshToken hashToken oldRawToken userId_ newExpiresAt env t
    = (Returned res, t') ->
  List.NoDup (map id t').
Proof.
  intros Hnd. rewrite rotate_cases.
  destruct (find (by_tokenHash (hashToken oldRawToken)) t) as [r|]; [|discriminate].
  destruct (revoked r); [discriminate|].
  destruct (expiresAt r <? now env)%Z; [discriminate|].
  destruct (collides hashToken env t) eqn:Hc; [discriminate|].
  intros [= _ <-]. rewrite map_app. simpl.
  destruct (rows_le_columns _ _ (rows_le_update_row (id r) t)) as [-> _].
  apply NoDup_snoc; [exact Hnd|].
  apply orb_false_iff in Hc as [Hi _]. intros Hin.
  apply existsb_by_id in Hin. congruence.
Qed.

(** C5.  On a table with a unique primary key, a rotation that returns has
    done both writes.  The row found under the old hash was not revoked and
    is now found there with [revoked = true], its other columns as they
    were; every row of another [id] is unchanged at its place; the table is
    one row longer, and the row at the end is the new row, which belongs to
    [userId_], is not revoked, expires at [newExpiresAt], and is the row
    found under the hash of the returned secret.  A rotation that throws
    has written nothing. *)
Theorem rotation_all_or_nothing hashToken oldRawToken userId_ newExpiresAt env
    (t : Table) :
  List.NoDup (map id t) ->
  (forall res t',
     rotateRefreshToken hashToken oldRawToken userId_ newExpiresAt env t
       = (Returned res, t') ->
     exists r r',
       find (by_tokenHash (hashToken oldRawToken)) t = Some r
       /\ revoked r = false
       /\ find (by_tokenHash (hashToken oldRawToken)) t' = Some r'
       /\ revoked r' = true
       /\ id r' = id r /\ userId r' = userId r /\ tokenHash r' = tokenHash r
       /\ expiresAt r' = expiresAt r
       /\ (forall (n : nat) x, t !! n = Some x -> id x <> id r -> t' !! n = Some x)
       /\ length t' = S (length t)
       /\ t' !! length t = Some (newRecord res)
       /\ newRecord res
          = {| id := rowId env; userId := userId_;
               tokenHash := hashToken (newRawToken res);
               expiresAt := newExpiresAt; revoked := false |}
       /\ find (by_tokenHash (hashToken (newRawToken res))) t'
          = Some (newRecord res))
  /\ (forall e t',
        rotateRefreshToken hashToken oldRawToken userId_ newExpiresAt env t
          = (Threw e, t') ->
        t' = t).
Proof.
  intros Hnd. split; [|intros e t'; apply rotate_threw].
  intros res t' Hrot.
  destruct (rotate_returned _ _ _ _ _ _ _ _ Hnd Hrot)
    as (r & Hfind & Hrev & -> & Hold & _ & Hnew & Hfnew).
  exists r, (revoked_true r). unfold Table in *.
  split; [exact Hfind|]. split; [exact Hrev|]. split; [exact Hold|].
  split; [reflexivity|]. do 4 (split; [reflexivity|]).
  split; [|split; [|split; [|split; [exact Hnew | exact Hfnew]]]].
  - intros n x Hn Hne. by apply lookup_app_l_Some, update_row_lookup_other.
  - rewrite length_app, update_row_length. simpl. lia.
  - apply list_lookup_middle. by rewrite update_row_length.
Qed.

Lemma rotation_all_or_nothing_witness :
  List.NoDup (map id demoTable)
  /\ (exists r r',
        find (by_tokenHash (demoHash "s1")) demoTable = Some r
        /\ revoked r = false
        /\ find (by_tokenHash (demoHash "s1")) demoRotated = Some r'
        /\ revoked r' = true
        /\ id r' = id r /\ userId r' = userId r /\ tokenHash r' = tokenHash r
        /\ expiresAt r' = expiresAt r
        /\ (forall (n : nat) x,
              demoTable !! n = Some x -> id x <> id r -> demoRotated !! n = Some x)
        /\ length demoRotated = S (length demoTable)
        /\ demoRotated !! length demoTable
           = Some {| id := "t9"; userId := "alice"; tokenHash := "h:s9";
                     expiresAt := 200; revoked := false |}
        /\ {| id := "t9"; userId := "alice"; tokenHash := "h:s9";
              expiresAt := 200; revoked := false |}
           = {| id := rowId demoEnv; userId := "alice";
                tokenHash := demoHash "s9"; expiresAt := 200; revoked := false |}
        /\ find (by_tokenHash (demoHash "s9")) demoRotated
           = Some {| id := "t9"; userId := "alice"; tokenHash := "h:s9";
                     expiresAt := 200; revoked := false |})
  /\ (forall e t',
        rotateRefreshToken demoHash "s0" "alice" 200 demoEnv demoTable = (Threw e, t') ->
        t' = demoTable).
Proof.
  split; [exact demoTable_ids|]. split.
  - exact (proj1 (rotation_all_or_nothing demoHash "s1" "alice" 200 demoEnv demoTable
                    demoTable_ids)
             {| newRawToken := "s9";
                newRecord := {| id := "t9"; userId := "alice"; tokenHash := "h:s9";
                                expiresAt := 200; revoked := false |} |}
             demoRotated eq_refl).
  - exact (proj2 (rotation_all_or_nothing demoHash "s0" "alice" 200 demoEnv demoTable
                    demoTable_ids)).
Defined.

(** ** The [revoked] column never goes back *)

(** C7.  Take any run of calls of the core.  Every row of the table before
    the run is at the same place after it, and there it is either unchanged
    or the same row with [revoked] gone from [false] to [true]. *)
Theorem revoked_never_reverts hashToken (cs : list Call) (t : Table) (n : nat) r :
  t !! n = Some r ->
  exists r',
    after_all hashToken cs t !! n = Some r'
    /\ (r' = r \/ (revoked r = false /\ r' = revoked_true r)).
Proof.
  intros Hn. destruct (after_all_le hashToken cs t) as (t1 & t2 & -> & Hle).
  destruct (Forall2_lookup_l _ _ _ _ _ Hle Hn) as (r' & Hr' & Hrr').
  exists r'. split; [by apply lookup_app_l_Some | exact Hrr'].
Qed.

Lemma revoked_never_reverts_witness :
  exists r',
    after_all demoHash
      [ RotateRefreshToken "s1" "alice" 200 demoEnv;
        RevokeAllRefreshTokensForUser "bob";
        RotateRefreshToken "s0" "alice" 300 demoEnv;
        CreateRefreshToken "bob" "s7" 400 "t7";
        RevokeRefreshTokenById "t3" ] demoTable !! 1%nat = Some r'
    /\ (r' = {| id := "t1"; userId := "alice"; tokenHash := "h:s1";
                expiresAt := 100; revoked := false |}
        \/ (revoked {| id := "t1"; userId := "alice"; tokenHash := "h:s1";
                       expiresAt := 100; revoked := false |} = false
            /\ r' = revoked_true
                      {| id := "t1"; userId := "alice"; tokenHash := "h:s1";
                         expiresAt := 100; revoked := false |})).
Proof.
  apply (revoked_never_reverts demoHash _ demoTable 1). reflexivity.
Defined.

(** ** Only hashes reach the table *)

(** C8.  The row [createRefreshToken] inserts, and the row a rotation
    inserts, carry [hashToken] of the raw secret in [tokenHash], and the
    table grows by that row alone.  The two lookups read the raw secret
    through its hash only: with another raw secret of the same hash,
    [findRefreshTokenByRaw] and [rotateRefreshToken] give the same outcome.
    Nor does the table keep any other trace of a raw secret: raw secrets of
    equal hash leave equal tables behind. *)
Theorem raw_secret_never_stored hashToken (t : Table) :
  (forall u raw e i r t',
     createRefreshToken hashToken u raw e i t = (Returned r, t') ->
     tokenHash r = hashToken raw /\ t' = t ++ [r])
  /\ (forall old u e env res t',
        rotateRefreshToken hashToken old u e env t = (Returned res, t') ->
        tokenHash (newRecord res) = hashToken (newRawToken res)
        /\ exists i, t' = update_row i t ++ [newRecord res])
  /\ (forall raw raw',
        hashToken raw = hashToken raw' ->
        findRefreshTokenByRaw hashToken raw t = findRefreshTokenByRaw hashToken raw' t)
  /\ (forall old old' u e env,
        hashToken old = hashToken old' ->
        rotateRefreshToken hashToken old u e env t
        = rotateRefreshToken hashToken old' u e env t)
  /\ (forall u raw raw' e i,
        hashToken raw = hashToken raw' ->
        createRefreshToken hashToken u raw e i t
        = createRefreshToken hashToken u raw' e i t)
  /\ (forall old u e env env',
        hashToken (uuid env) = hashToken (uuid env') ->
        now env = now env' -> rowId env = rowId env' ->
        after hashToken (RotateRefreshToken old u e env) t
        = after hashToken (RotateRefreshToken old u e env') t).
Proof.
  repeat apply conj.
  - intros u raw e i r t'. unfold createRefreshToken, create.
    destruct (existsb (by_id i) t || existsb (by_tokenHash (hashToken raw)) t);
      [discriminate|].
    by intros [= <- <-].
  - intros old u e env res t'. rewrite rotate_cases.
    destruct (find (by_tokenHash (hashToken old)) t) as [r|]; [|discriminate].
    destruct (revoked r); [discriminate|].
    destruct (expiresAt r <? now env)%Z; [discriminate|].
    destruct (collides hashToken env t); [discriminate|].
    intros [= <- <-]. split; [reflexivity|]. by exists (id r).
  - intros raw raw' H. unfold findRefreshTokenByRaw. by rewrite H.
  - intros old old' u e env H. unfold rotateRefreshToken. by rewrite H.
  - intros u raw raw' e i H. unfold createRefreshToken. by rewrite H.
  - intros old u e env env' Hh Hn Hi. unfold after. rewrite !rotate_cases.
    unfold collides, rotatedRow. rewrite Hh, Hn, Hi.
    destruct (find (by_tokenHash (hashToken old)) t) as [r|]; [|reflexivity].
    destruct (revoked r); [reflexivity|].
    destruct (expiresAt r <? now env')%Z; [reflexivity|].
    by destruct (existsb _ t || existsb _ t).
Qed.

Lemma raw_secret_never_stored_witness :
  (tokenHash {| id := "t7"; userId := "bob"; tokenHash := "s7";
                expiresAt := 400; revoked := false |} = shortHash "s7-first"
   /\ demoTable ++ [ {| id := "t7"; userId := "bob"; tokenHash := "s7";
                        expiresAt := 400; revoked := false |} ]
      = demoTable ++ [ {| id := "t7"; userId := "bob"; tokenHash := "s7";
                          expiresAt := 400; revoked := false |} ])
  /\ createRefreshToken shortHash "bob" "s7-first" 400 "t7" demoTable
     = createRefreshToken shortHash "bob" "s7-other" 400 "t7" demoTable.
Proof.
  split.
  - exact (proj1 (raw_secret_never_stored shortHash demoTable)
             "bob" "s7-first" 400%Z "t7" _ _ eq_refl).
  - exact (proj1 (proj2 (proj2 (proj2 (proj2
             (raw_secret_never_stored shortHash demoTable)))))
             "bob" "s7-first" "s7-other" 400%Z "t7" eq_refl).
Defined.

(** ** Revoking twice *)

Lemma find_by_id_update_row i t r :
  find (by_id i) t = Some r ->
  find (by_id i) (update_row i t) = Some (revoked_true r).
Proof.
  induction t as [|x t IH]; simpl; [discriminate|].
  destruct (by_id i x) eqn:E.
  - intros [= <-]. simpl. by rewrite by_id_revoked_true, E.
  - intros H. simpl. rewrite E. by apply IH.
Qed.

Lemma update_row_idem i t : update_row i (update_row i t) = update_row i t.
Proof.
  induction t as [|x t IH]; simpl; [reflexivity|].
  destruct (by_id i x) eqn:E; simpl.
  - by rewrite by_id_revoked_true, E.
  - by rewrite E, IH.
Qed.

Lemma live_of_after u r :
  live_of u (if live_of u r then revoked_true r else r) = false.
Proof.
  destruct (live_of u r) eqn:E; [|exact E].
  unfold live_of. simpl. apply andb_false_r.
Qed.

Lemma revokeAll_again u t :
  let t1 := map (fun r => if live_of u r then revoked_true r else r) t in
  List.filter (live_of u) t1 = []
  /\ map (fun r => if live_of u r then revoked_true r else r) t1 = t1.
Proof.
  induction t as [|x t [IH1 IH2]]; simpl; [done|].
  rewrite live_of_after. split; [exact IH1 | by rewrite IH2].
Qed.

(** C9.  Revoking an existing token twice by its [id] throws neither time,
    and the second call leaves the table the first one left.  The same goes
    for revoking all tokens of a user twice; the second call finds nothing
    left to revoke. *)
Theorem revoke_is_idempotent tokenId userId_ (t : Table) r :
  find (by_id tokenId) t = Some r ->
  (exists r1 t1,
     revokeRefreshTokenById tokenId t = (Returned r1, t1)
     /\ revokeRefreshTokenById tokenId t1 = (Returned r1, t1))
  /\ (exists n t1,
        revokeAllRefreshTokensForUser userId_ t = (Returned n, t1)
        /\ revokeAllRefreshTokensForUser userId_ t1 = (Returned 0%nat, t1)).
Proof.
  intros Hfind. split.
  - exists (revoked_true r), (update_row tokenId t).
    unfold revokeRefreshTokenById, update.
    rewrite (find_by_id_update_row _ _ _ Hfind), Hfind, update_row_idem.
    by rewrite revoked_true_idem.
  - eexists _, _. split; [reflexivity|].
    unfold revokeAllRefreshTokensForUser, updateMany.
    destruct (revokeAll_again userId_ t) as [H1 H2]. unfold live_of in *.
    by rewrite H1, H2.
Qed.

Lemma revoke_is_idempotent_witness :
  find (by_id "t1") demoTable
    = Some {| id := "t1"; userId := "alice"; tokenHash := "h:s1";
              expiresAt := 100; revoked := false |}
  /\ (exists r1 t1,
        revokeRefreshTokenById "t1" demoTable = (Returned r1, t1)
        /\ revokeRefreshTokenById "t1" t1 = (Returned r1, t1))
  /\ (exists n t1,
        revokeAllRefreshTokensForUser "alice" demoTable = (Returned n, t1)
        /\ revokeAllRefreshTokensForUser "alice" t1 = (Returned 0%nat, t1)).
Proof.
  split; [reflexivity|].
  exact (revoke_is_idempotent "t1" "alice" demoTable _ eq_refl).
Defined.

(** ** The refresh cookie and [logout] *)

Lemma cookiesSetBy_session User production days (s : Session User)
    (rest : list (Effect User)) :
  (forall e, In e rest ->
     match e with ResCookie _ _ _ => False | _ => True end) ->
  cookiesSetBy User (setSessionCookies User production days s ++ rest)
  = <["refresh_token" := refreshToken s]> (<["access_token" := accessToken s]> ∅).
Proof.
  unfold cookiesSetBy, setSessionCookies. simpl.
  generalize (<["refresh_token" := refreshToken s]>
                (<["access_token" := accessToken s]> (∅ : gmap string string))).
  induction rest as [|e rest IH]; intros jar Hrest; simpl; [reflexivity|].
  assert (He := Hrest e (or_introl eq_refl)).
  destruct e; try done; apply IH; intros e' He'; apply Hrest; by right.
Qed.

Lemma logout_without_refreshToken User (cookies : gmap string string) svc :
  cookies !! "refreshToken" = None ->
  logout User cookies svc
  = [ResStatus 200; ResJson "Logged out successfully" None] ++ clearCookies User.
Proof. intros H. unfold logout. by rewrite H. Qed.

(** C10.  [signUp] and [signIn] set the refresh cookie under
    [config.cookie.refreshCookieName], which is ["refresh_token"], while
    [logout] reads [req.cookies.refreshToken].  So on a request that carries
    the cookies of a successful [signUp] or [signIn] and no other, [logout]
    finds no refresh token, does not call [userService.logout], and answers
    200 with "Logged out successfully". *)
Theorem logout_misses_session_cookie (User Data : Type) production days
    (data : Data) (service : Data -> Outcome (Session User)) (s : Session User)
    (userService_logout : string -> Outcome unit) (es : list (Effect User)) :
  service data = Returned s ->
  es = signUp User Data production days (Some data) service
  \/ es = signIn User Data production days (Some data) service ->
  refreshCookieName (config_cookie production) = "refresh_token"
  /\ cookiesSetBy User es !! "refresh_token" = Some (refreshToken s)
  /\ cookiesSetBy User es !! "refreshToken" = None
  /\ logoutCalls User (logout User (cookiesSetBy User es) userService_logout) = []
  /\ logout User (cookiesSetBy User es) userService_logout
     = [ ResStatus 200; ResJson "Logged out successfully" None;
         ResClearCookie "accessToken" None;
         ResClearCookie "refreshToken" (Some "/api/v1/auth") ].
Proof.
  intros Hs Hes.
  assert (Hjar : cookiesSetBy User es
    = <["refresh_token" := refreshToken s]> (<["access_token" := accessToken s]> ∅)).
  { destruct Hes as [-> | ->]; unfold signUp, signIn; rewrite Hs;
      apply cookiesSetBy_session; simpl; intros e [<-|[<-|[]]]; exact I. }
  assert (Hnone : cookiesSetBy User es !! "refreshToken" = None).
  { rewrite Hjar, !lookup_insert_ne by done. apply lookup_empty. }
  split; [reflexivity|]. split; [by rewrite Hjar, lookup_insert_eq|].
  split; [exact Hnone|].
  rewrite (logout_without_refreshToken _ _ _ Hnone). by split.
Qed.

Lemma logout_misses_session_cookie_witness :
  refreshCookieName (config_cookie true) = "refresh_token"
  /\ cookiesSetBy nat
       (signIn nat unit true 7 (Some tt)
          (fun _ => Returned (mkSession 1%nat "access-1" "refresh-1")))
     !! "refresh_token" = Some "refresh-1"
  /\ cookiesSetBy nat
       (signIn nat unit true 7 (Some tt)
          (fun _ => Returned (mkSession 1%nat "access-1" "refresh-1")))
     !! "refreshToken" = None
  /\ logoutCalls nat
       (logout nat
          (cookiesSetBy nat
             (signIn nat unit true 7 (Some tt)
                (fun _ => Returned (mkSession 1%nat "access-1" "refresh-1"))))
          (fun _ => Returned tt)) = []
  /\ logout nat
       (cookiesSetBy nat
          (signIn nat unit true 7 (Some tt)
             (fun _ => Returned (mkSession 1%nat "access-1" "refresh-1"))))
       (fun _ => Returned tt)
     = [ ResStatus 200; ResJson "Logged out successfully" None;
         ResClearCookie "accessToken" None;
         ResClearCookie "refreshToken" (Some "/api/v1/auth") ].
Proof.
  apply (logout_misses_session_cookie nat unit true 7 tt
           (fun _ => Returned (mkSession 1%nat "access-1" "refresh-1"))
           (mkSession 1%nat "access-1" "refresh-1")).
  - reflexivity.
  - right. reflexivity.
Defined.

(** ** What else holds of a rotation *)

(** A revoked row presented again: the call throws [ReuseDetected] and the
    table is the one it started from. *)
Theorem replay_of_revoked_token hashToken raw u e env (t : Table) r :
  find (by_tokenHash (hashToken raw)) t = Some r ->
  revoked r = true ->
  rotateRefreshToken hashToken raw u e env t = (Threw ReuseDetected, t).
Proof. intros Hfind Hrev. by rewrite rotate_cases, Hfind, Hrev. Qed.

Lemma replay_of_revoked_token_witness :
  rotateRefreshToken demoHash "s0" "bob" 200 demoEnv demoTable
  = (Threw ReuseDetected, demoTable).
Proof.
  exact (replay_of_revoked_token demoHash "s0" "bob" 200 demoEnv demoTable
           _ eq_refl eq_refl).
Defined.

(** An unrevoked row past its expiry: the call throws [Expired] and the
    table is the one it started from. *)
Theorem rotation_of_expired_token hashToken raw u e env (t : Table) r :
  find (by_tokenHash (hashToken raw)) t = Some r ->
  revoked r = false ->
  (expiresAt r < now env)%Z ->
  rotateRefreshToken hashToken raw u e env t = (Threw Expired, t).
Proof.
  intros Hfind Hrev Hexp. rewrite rotate_cases, Hfind, Hrev.
  by apply Z.ltb_lt in Hexp as ->.
Qed.

Lemma rotation_of_expired_token_witness :
  rotateRefreshToken demoHash "s3" "alice" 200 demoEnv demoTable
  = (Threw Expired, demoTable).
Proof.
  apply (rotation_of_expired_token demoHash "s3" "alice" 200 demoEnv demoTable
           {| id := "t3"; userId := "alice"; tokenHash := "h:s3";
              expiresAt := 10; revoked := false |});
    [reflexivity | reflexivity | vm_compute; reflexivity].
Defined.

(** Started from a table with unique keys and hashes, every run of calls
    ends in such a table. *)
Theorem unique_columns_are_kept hashToken (cs : list Call) (t : Table) :
  well_formed t -> well_formed (after_all hashToken cs t).
Proof. apply well_formed_after_all. Qed.

Lemma unique_columns_are_kept_witness :
  well_formed
    (after_all demoHash
       [ CreateRefreshToken "alice" "s0" 100 "t0";
         RotateRefreshToken "s0" "alice" 200 demoEnv;
         CreateRefreshToken "bob" "s0" 100 "t1" ] []).
Proof.
  apply (unique_columns_are_kept demoHash _ []). exact well_formed_nil.
Defined.

(** Two rotations of one token, one after the other.  When the first has
    returned, the second, whoever it is made for, throws [ReuseDetected] and
    writes nothing: the row of the presented secret is found revoked, and
    the row the first rotation inserted is still found under the hash of
    the new secret, not revoked. *)
Theorem serial_rotations_one_winner hashToken raw u e env u' e' env' (t : Table)
    res t1 :
  List.NoDup (map id t) ->
  rotateRefreshToken hashToken raw u e env t = (Returned res, t1) ->
  rotateRefreshToken hashToken raw u' e' env' t1 = (Threw ReuseDetected, t1)
  /\ (exists r', find (by_tokenHash (hashToken raw)) t1 = Some r'
                 /\ revoked r' = true)
  /\ find (by_tokenHash (hashToken (newRawToken res))) t1 = Some (newRecord res)
  /\ revoked (newRecord res) = false.
Proof.
  intros Hnd Hrot.
  destruct (rotate_returned _ _ _ _ _ _ _ _ Hnd Hrot)
    as (r0 & _ & _ & _ & Hold & _ & Hnew & Hfnew).
  split; [by rewrite rotate_cases, Hold|].
  split; [by exists (revoked_true r0)|].
  split; [exact Hfnew | by rewrite Hnew].
Qed.

Lemma serial_rotations_one_winner_witness :
  rotateRefreshToken demoHash "s1" "bob" 300 demoEnv2 demoRotated
    = (Threw ReuseDetected, demoRotated)
  /\ (exists r', find (by_tokenHash (demoHash "s1")) demoRotated = Some r'
                 /\ revoked r' = true)
  /\ find (by_tokenHash (demoHash "s9")) demoRotated
     = Some {| id := "t9"; userId := "alice"; tokenHash := "h:s9";
               expiresAt := 200; revoked := false |}
  /\ revoked {| id := "t9"; userId := "alice"; tokenHash := "h:s9";
                expiresAt := 200; revoked := false |} = false.
Proof.
  exact (serial_rotations_one_winner demoHash "s1" "alice" 200 demoEnv
           "bob" 300 demoEnv2 demoTable
           {| newRawToken := "s9";
              newRecord := {| id := "t9"; userId := "alice"; tokenHash := "h:s9";
                              expiresAt := 200; revoked := false |} |}
           demoRotated demoTable_ids eq_refl).
Defined.

(** ** More on the token table: lookups *)

Lemma find_snoc_miss {A} (p : A -> bool) (l : list A) x :
  p x = false -> find p (l ++ [x]) = find p l.
Proof.
  intros Hx. induction l as [|y l IH]; simpl; [by rewrite Hx|].
  by destruct (p y).
Qed.

Lemma find_map_hash h (f : RefreshToken -> RefreshToken) t :
  (forall x, tokenHash (f x) = tokenHash x) ->
  find (by_tokenHash h) (map f t) = option_map f (find (by_tokenHash h) t).
Proof.
  intros Hf. induction t as [|x t IH]; simpl; [reflexivity|].
  unfold by_tokenHash at 1. rewrite Hf. fold (by_tokenHash h x).
  by destruct (by_tokenHash h x).
Qed.

Lemma lookup_map {A B} (f : A -> B) (l : list A) (n : nat) :
  map f l !! n = option_map f (l !! n).
Proof.
  revert n. induction l as [|x l IH]; intros [|n]; simpl; try reflexivity.
  apply IH.
Qed.

(** A row found under a hash is found under it ever after, the same row but
    for [revoked]. *)
Lemma find_le h t t' r :
  table_le t t' ->
  find (by_tokenHash h) t = Some r ->
  exists r', find (by_tokenHash h) t' = Some r' /\ row_le r r'.
Proof.
  intros (t1 & t2 & -> & H). revert r. induction H as [|x y l k Hxy H IH];
    intros r Hfind; simpl in *; [discriminate|].
  destruct (row_le_columns _ _ Hxy) as (_ & _ & Hh & _).
  unfold by_tokenHash in *. rewrite Hh.
  destruct (String.eqb (tokenHash x) h).
  - injection Hfind as ->. by exists y.
  - by apply IH.
Qed.

Lemma find_by_id_unique t r :
  List.NoDup (map id t) -> In r t -> find (by_id (id r)) t = Some r.
Proof.
  induction t as [|x t IH]; simpl; [done|]. intros Hnd Hin.
  apply List.NoDup_cons_iff in Hnd as [Hx Hnd].
  destruct (by_id (id r) x) eqn:E.
  - apply by_id_true in E. destruct Hin as [->|Hin]; [reflexivity|].
    exfalso. apply Hx. rewrite E. by apply in_map.
  - destruct Hin as [->|Hin]; [|by apply IH].
    assert (by_id (id r) r = true) by by apply by_id_true. congruence.
Qed.

(** With a unique primary key the update by [id] touches the rows of that
    [id] and no other. *)
Lemma update_row_map i t :
  List.NoDup (map id t) ->
  update_row i t = map (fun x => if by_id i x then revoked_true x else x) t.
Proof.
  induction t as [|x t IH]; simpl; [reflexivity|]. intros Hnd.
  apply List.NoDup_cons_iff in Hnd as [Hx Hnd].
  destruct (by_id i x) eqn:E; [|by rewrite IH].
  f_equal. symmetry. rewrite <- (map_id t) at 2. apply map_ext_in.
  intros y Hy. destruct (by_id i y) eqn:Ey; [|reflexivity].
  exfalso. apply Hx. apply by_id_true in E, Ey. rewrite E, <- Ey. by apply in_map.
Qed.

Lemma create_cases hashToken u raw e i t :
  createRefreshToken hashToken u raw e i t
  = if existsb (by_id i) t || existsb (by_tokenHash (hashToken raw)) t
    then (Threw (PrismaError "P2002"), t)
    else (Returned {| id := i; userId := u; tokenHash := hashToken raw;
                      expiresAt := e; revoked := false |},
          t ++ [ {| id := i; userId := u; tokenHash := hashToken raw;
                    expiresAt := e; revoked := false |} ]).
Proof. reflexivity. Qed.

(** ** Issuing *)

Lemma create_returned hashToken u raw e i t r t' :
  createRefreshToken hashToken u raw e i t = (Returned r, t') ->
  find (by_tokenHash (hashToken raw)) t' = Some r
  /\ t' = t ++ [r]
  /\ r = {| id := i; userId := u; tokenHash := hashToken raw;
            expiresAt := e; revoked := false |}.
Proof.
  rewrite create_cases.
  destruct (existsb (by_id i) t || existsb (by_tokenHash (hashToken raw)) t) eqn:E;
    [discriminate|].
  intros [= <- <-]. apply orb_false_iff in E as [_ Eh].
  split; [by apply find_fresh_snoc | by split].
Qed.

(** An issued token is found by its raw secret, as the row that was
    returned, and the lookup of any raw secret of another hash answers as
    it did before. *)
Theorem issued_token_is_found hashToken u raw e i (t : Table) r t' :
  createRefreshToken hashToken u raw e i t = (Returned r, t') ->
  findRefreshTokenByRaw hashToken raw t' = (Returned (Some r), t')
  /\ r = {| id := i; userId := u; tokenHash := hashToken raw;
            expiresAt := e; revoked := false |}
  /\ forall raw',
       hashToken raw' <> hashToken raw ->
       fst (findRefreshTokenByRaw hashToken raw' t')
       = fst (findRefreshTokenByRaw hashToken raw' t).
Proof.
  rewrite create_cases.
  destruct (existsb (by_id i) t || existsb (by_tokenHash (hashToken raw)) t) eqn:E;
    [discriminate|].
  intros [= <- <-]. apply orb_false_iff in E as [_ Eh].
  unfold findRefreshTokenByRaw, findUnique. simpl. split; [|split; [reflexivity|]].
  - by rewrite find_fresh_snoc.
  - intros raw' Hne. apply f_equal, find_snoc_miss.
    apply not_true_is_false. intros H. apply by_tokenHash_true in H. by apply Hne.
Qed.

Lemma issued_token_is_found_witness :
  findRefreshTokenByRaw demoHash "s7"
    (demoTable ++ [ {| id := "t7"; userId := "bob"; tokenHash := "h:s7";
                       expiresAt := 400; revoked := false |} ])
  = (Returned (Some {| id := "t7"; userId := "bob"; tokenHash := "h:s7";
                       expiresAt := 400; revoked := false |}),
     demoTable ++ [ {| id := "t7"; userId := "bob"; tokenHash := "h:s7";
                       expiresAt := 400; revoked := false |} ]).
Proof.
  exact (proj1 (issued_token_is_found demoHash "bob" "s7" 400 "t7" demoTable
                  _ _ eq_refl)).
Defined.

(** Once a raw secret is issued, no call can issue it again, for any user,
    expiry or row key: the call throws [P2002] and writes nothing, whatever
    calls were made in between. *)
Theorem issued_secret_is_refused hashToken u raw e i (t : Table) r t'
    (cs : list Call) u' e' i' :
  createRefreshToken hashToken u raw e i t = (Returned r, t') ->
  createRefreshToken hashToken u' raw e' i' (after_all hashToken cs t')
  = (Threw (PrismaError "P2002"), after_all hashToken cs t').
Proof.
  intros Hc. destruct (create_returned hashToken u raw e i t r t' Hc)
    as [Hfind _]. simpl in Hfind.
  destruct (find_le _ _ _ _ (after_all_le hashToken cs t') Hfind) as (r' & Hr' & _).
  rewrite create_cases.
  assert (existsb (by_tokenHash (hashToken raw)) (after_all hashToken cs t') = true)
    as ->; [|by rewrite orb_true_r].
  apply find_existsb. congruence.
Qed.

Lemma issued_secret_is_refused_witness :
  createRefreshToken demoHash "mallory" "s7" 900 "t8"
    (after_all demoHash [RevokeAllRefreshTokensForUser "bob"]
       (demoTable ++ [ {| id := "t7"; userId := "bob"; tokenHash := "h:s7";
                          expiresAt := 400; revoked := false |} ]))
  = (Threw (PrismaError "P2002"),
     after_all demoHash [RevokeAllRefreshTokensForUser "bob"]
       (demoTable ++ [ {| id := "t7"; userId := "bob"; tokenHash := "h:s7";
                          expiresAt := 400; revoked := false |} ])).
Proof.
  exact (issued_secret_is_refused demoHash "bob" "s7" 400 "t7" demoTable _ _
           [RevokeAllRefreshTokensForUser "bob"] "mallory" 900 "t8" eq_refl).
Defined.

(** ** Revoking *)

(** On a table with a unique primary key, [revokeRefreshTokenById] of the
    [id] of a stored row returns that row revoked and revokes it in the
    table, every other row staying as it is; of an [id] that no row has, it
    throws [P2025] and writes nothing. *)
Theorem revoke_by_id_effect tokenId (t : Table) :
  List.NoDup (map id t) ->
  (forall r, In r t -> id r = tokenId ->
     revokeRefreshTokenById tokenId t
     = (Returned (revoked_true r),
        map (fun x => if by_id tokenId x then revoked_true x else x) t))
  /\ (~ In tokenId (map id t) ->
      revokeRefreshTokenById tokenId t = (Threw (PrismaError "P2025"), t)).
Proof.
  intros Hnd. unfold revokeRefreshTokenById, update. split.
  - intros r Hin <-. by rewrite (find_by_id_unique _ _ Hnd Hin), update_row_map.
  - intros Hout. destruct (find (by_id tokenId) t) as [r|] eqn:E; [|reflexivity].
    exfalso. apply Hout, existsb_by_id, find_existsb. congruence.
Qed.

Lemma revoke_by_id_effect_witness :
  revokeRefreshTokenById "t2" demoTable
  = (Returned {| id := "t2"; userId := "bob"; tokenHash := "h:s2";
                 expiresAt := 100; revoked := true |},
     map (fun x => if by_id "t2" x then revoked_true x else x) demoTable)
  /\ revokeRefreshTokenById "t5" demoTable = (Threw (PrismaError "P2025"), demoTable).
Proof.
  split.
  - apply (proj1 (revoke_by_id_effect "t2" demoTable demoTable_ids)
             {| id := "t2"; userId := "bob"; tokenHash := "h:s2";
                expiresAt := 100; revoked := false |});
      [simpl; tauto | reflexivity].
  - apply (proj2 (revoke_by_id_effect "t5" demoTable demoTable_ids)).
    simpl. intuition discriminate.
Defined.

(** [revokeAllRefreshTokensForUser] never throws.  It answers the number of
    rows of the user that were not revoked; after it no row of the user is
    unrevoked, each row of the user is the row it was with [revoked] set,
    and the rows of every other user are as they were. *)
Theorem revoke_all_effect userId_ (t : Table) :
  exists t',
    revokeAllRefreshTokensForUser userId_ t
    = (Returned (length (live_rows userId_ t)), t')
    /\ length t' = length t
    /\ (forall r', In r' t' -> userId r' = userId_ -> revoked r' = true)
    /\ (forall n r, t !! n = Some r ->
          t' !! n = Some (if String.eqb (userId r) userId_
                          then revoked_true r else r)).
Proof.
  exists (map (fun r => if by_userId userId_ r && negb (revoked r)
                         then revoked_true r else r) t).
  split; [reflexivity|]. split; [apply length_map|]. split.
  - intros r' Hin Hu. apply in_map_iff in Hin as (r & <- & _).
    destruct (by_userId userId_ r && negb (revoked r)) eqn:E; [reflexivity|].
    apply andb_false_iff in E as [E|E].
    + apply by_userId_true in Hu. congruence.
    + by apply negb_false_iff.
  - intros n r Hn. unfold Table in *. rewrite lookup_map, Hn. simpl. f_equal.
    unfold by_userId. destruct (String.eqb (userId r) userId_); simpl; [|reflexivity].
    destruct (revoked r) eqn:E; simpl; [|reflexivity].
    symmetry. by apply revoked_true_fix.
Qed.

(** After [revokeAllRefreshTokensForUser], every rotation of a token of
    that user throws [ReuseDetected], whatever calls are made in between,
    also for a token that is past its expiry. *)
Theorem revoke_all_then_rotate hashToken raw (t : Table) r (cs : list Call) u e env :
  find (by_tokenHash (hashToken raw)) t = Some r ->
  rotateRefreshToken hashToken raw u e env
    (after_all hashToken (RevokeAllRefreshTokensForUser (userId r) :: cs) t)
  = (Threw ReuseDetected,
     after_all hashToken (RevokeAllRefreshTokensForUser (userId r) :: cs) t).
Proof.
  intros Hfind.
  set (f := fun x => if by_userId (userId r) x && negb (revoked x)
                     then revoked_true x else x).
  change (after_all hashToken (RevokeAllRefreshTokensForUser (userId r) :: cs) t)
    with (after_all hashToken cs (map f t)).
  assert (Hf : find (by_tokenHash (hashToken raw)) (map f t) = Some (f r)).
  { rewrite find_map_hash, Hfind; [reflexivity|].
    intros x. unfold f. by destruct (_ && _). }
  assert (Hrev : revoked (f r) = true).
  { unfold f. assert (by_userId (userId r) r = true) as -> by by apply by_userId_true.
    by destruct (revoked r) eqn:E; simpl; rewrite ?E. }
  destruct (find_revoked_le _ _ _ _ (after_all_le hashToken cs (map f t)) Hf Hrev)
    as (r' & Hr' & Hrev').
  by rewrite rotate_cases, Hr', Hrev'.
Qed.

Lemma revoke_all_then_rotate_witness :
  rotateRefreshToken demoHash "s1" "alice" 200 demoEnv
    (after_all demoHash [RevokeAllRefreshTokensForUser "alice"] demoTable)
  = (Threw ReuseDetected,
     after_all demoHash [RevokeAllRefreshTokensForUser "alice"] demoTable).
Proof.
  exact (revoke_all_then_rotate demoHash "s1" demoTable
           {| id := "t1"; userId := "alice"; tokenHash := "h:s1";
              expiresAt := 100; revoked := false |} [] "alice" 200 demoEnv eq_refl).
Defined.

(** A token whose row is revoked, by whatever call, never rotates again:
    every later rotation of it throws [ReuseDetected] and writes nothing. *)
Theorem revoked_token_never_rotates hashToken raw (t : Table) r (cs : list Call)
    u e env :
  find (by_tokenHash (hashToken raw)) t = Some r ->
  revoked r = true ->
  rotateRefreshToken hashToken raw u e env (after_all hashToken cs t)
  = (Threw ReuseDetected, after_all hashToken cs t).
Proof.
  intros Hfind Hrev.
  destruct (find_revoked_le _ _ _ _ (after_all_le hashToken cs t) Hfind Hrev)
    as (r' & Hr' & Hrev').
  by rewrite rotate_cases, Hr', Hrev'.
Qed.

Lemma revoked_token_never_rotates_witness :
  rotateRefreshToken demoHash "s0" "alice" 200 demoEnv
    (after_all demoHash
       [ RotateRefreshToken "s1" "alice" 200 demoEnv;
         CreateRefreshToken "alice" "s7" 400 "t7" ] demoTable)
  = (Threw ReuseDetected,
     after_all demoHash
       [ RotateRefreshToken "s1" "alice" 200 demoEnv;
         CreateRefreshToken "alice" "s7" 400 "t7" ] demoTable).
Proof.
  exact (revoked_token_never_rotates demoHash "s0" demoTable _
           [ RotateRefreshToken "s1" "alice" 200 demoEnv;
             CreateRefreshToken "alice" "s7" 400 "t7" ]
           "alice" 200 demoEnv eq_refl eq_refl).
Defined.

(** On a table with a unique primary key, a token whose row was revoked by
    its [id] (a logout) throws [ReuseDetected] when it is rotated. *)
Theorem logged_out_token_is_reuse hashToken raw (t : Table) r t1 r1 u e env :
  List.NoDup (map id t) ->
  find (by_tokenHash (hashToken raw)) t = Some r ->
  revokeRefreshTokenById (id r) t = (Returned r1, t1) ->
  rotateRefreshToken hashToken raw u e env t1 = (Threw ReuseDetected, t1).
Proof.
  intros Hnd Hfind. unfold revokeRefreshTokenById, update.
  destruct (find (by_id (id r)) t); [|discriminate]. intros [= _ <-].
  by rewrite rotate_cases, (find_update_row _ _ _ Hnd Hfind).
Qed.

Lemma logged_out_token_is_reuse_witness :
  rotateRefreshToken demoHash "s1" "alice" 200 demoEnv (update_row "t1" demoTable)
  = (Threw ReuseDetected, update_row "t1" demoTable).
Proof.
  exact (logged_out_token_is_reuse demoHash "s1" demoTable
           {| id := "t1"; userId := "alice"; tokenHash := "h:s1";
              expiresAt := 100; revoked := false |} _ _ "alice" 200 demoEnv
           demoTable_ids eq_refl eq_refl).
Defined.

(** ** More on rotation *)

(** The secret a rotation returns rotates in turn.  When a rotation made
    for a user has returned, the new secret, presented for that user no
    later than [newExpiresAt] and with a fresh [uuidv4()] and row key,
    returns the next secret: the row of the presented secret is then found
    with [revoked = true], and the row found under the hash of the next
    secret is a row of that user, not revoked, with the expiry asked for. *)
Theorem rotated_token_rotates hashToken raw u e env (t : Table) res t1 e2 env2 :
  List.NoDup (map id t) ->
  rotateRefreshToken hashToken raw u e env t = (Returned res, t1) ->
  (now env2 <= e)%Z ->
  collides hashToken env2 t1 = false ->
  exists res2 t2,
    rotateRefreshToken hashToken (newRawToken res) u e2 env2 t1 = (Returned res2, t2)
    /\ newRawToken res2 = uuid env2
    /\ (exists r', find (by_tokenHash (hashToken (newRawToken res))) t2 = Some r'
                   /\ revoked r' = true /\ id r' = id (newRecord res))
    /\ find (by_tokenHash (hashToken (newRawToken res2))) t2 = Some (newRecord res2)
    /\ revoked (newRecord res2) = false
    /\ userId (newRecord res2) = u
    /\ expiresAt (newRecord res2) = e2.
Proof.
  intros Hnd Hrot Hnow Hc.
  destruct (rotate_returned _ _ _ _ _ _ _ _ Hnd Hrot)
    as (r & _ & _ & _ & _ & _ & Hnew & Hfind).
  pose proof (rotate_returned_ids _ _ _ _ _ _ _ _ Hnd Hrot) as Hnd1.
  destruct (rotateRefreshToken hashToken (newRawToken res) u e2 env2 t1)
    as [[res2|err] t2] eqn:Hrot2.
  - destruct (rotate_returned _ _ _ _ _ _ _ _ Hnd1 Hrot2)
      as (r1 & Hfind1 & _ & _ & Hold2 & _ & Hnew2 & Hfnew2).
    assert (r1 = newRecord res) as -> by congruence.
    exists res2, t2. split; [reflexivity|]. split.
    { rewrite rotate_cases, Hfind, Hc, Hnew in Hrot2. simpl in Hrot2.
      assert ((e <? now env2)%Z = false) as Hlt by by apply Z.ltb_ge.
      rewrite Hlt in Hrot2. by injection Hrot2 as <- _. }
    split; [by exists (revoked_true (newRecord res))|].
    split; [exact Hfnew2|]. by rewrite Hnew2.
  - exfalso. rewrite rotate_cases, Hfind, Hc, Hnew in Hrot2. simpl in Hrot2.
    assert ((e <? now env2)%Z = false) as Hlt by by apply Z.ltb_ge.
    rewrite Hlt in Hrot2. discriminate.
Qed.

Lemma rotated_token_rotates_witness :
  exists res2 t2,
    rotateRefreshToken demoHash "s9" "alice" 300 demoEnv2 demoRotated
    = (Returned res2, t2)
    /\ newRawToken res2 = "s10"
    /\ (exists r', find (by_tokenHash (demoHash "s9")) t2 = Some r'
                   /\ revoked r' = true /\ id r' = "t9")
    /\ find (by_tokenHash (demoHash (newRawToken res2))) t2 = Some (newRecord res2)
    /\ revoked (newRecord res2) = false
    /\ userId (newRecord res2) = "alice"
    /\ expiresAt (newRecord res2) = 300%Z.
Proof.
  apply (rotated_token_rotates demoHash "s1" "alice" 200 demoEnv demoTable
           {| newRawToken := "s9";
              newRecord := {| id := "t9"; userId := "alice"; tokenHash := "h:s9";
                              expiresAt := 200; revoked := false |} |}
           demoRotated 300 demoEnv2);
    [exact demoTable_ids | reflexivity | vm_compute; discriminate | reflexivity].
Defined.

(** A raw secret that has a row keeps it: after any calls it is still found,
    with the same [id], owner, hash and expiry, and a rotation of it never
    throws [InvalidToken]. *)
Theorem stored_token_stays_known hashToken raw (t : Table) r (cs : list Call) u e env :
  find (by_tokenHash (hashToken raw)) t = Some r ->
  (exists r',
     fst (findRefreshTokenByRaw hashToken raw (after_all hashToken cs t))
     = Returned (Some r')
     /\ id r' = id r /\ userId r' = userId r /\ tokenHash r' = tokenHash r
     /\ expiresAt r' = expiresAt r)
  /\ fst (rotateRefreshToken hashToken raw u e env (after_all hashToken cs t))
     <> Threw InvalidToken.
Proof.
  intros Hfind.
  destruct (find_le _ _ _ _ (after_all_le hashToken cs t) Hfind) as (r' & Hr' & Hle).
  split.
  - exists r'. unfold findRefreshTokenByRaw, findUnique. simpl. rewrite Hr'.
    split; [reflexivity | by apply row_le_columns].
  - rewrite rotate_cases, Hr'.
    destruct (revoked r'); [discriminate|].
    destruct (expiresAt r' <? now env)%Z; [discriminate|].
    destruct (collides hashToken env _); discriminate.
Qed.

Lemma stored_token_stays_known_witness :
  (exists r',
     fst (findRefreshTokenByRaw demoHash "s2"
            (after_all demoHash
               [ RevokeAllRefreshTokensForUser "bob";
                 RotateRefreshToken "s2" "bob" 200 demoEnv ] demoTable))
     = Returned (Some r')
     /\ id r' = "t2" /\ userId r' = "bob" /\ tokenHash r' = "h:s2"
     /\ expiresAt r' = 100%Z)
  /\ fst (rotateRefreshToken demoHash "s2" "bob" 200 demoEnv
            (after_all demoHash
               [ RevokeAllRefreshTokensForUser "bob";
                 RotateRefreshToken "s2" "bob" 200 demoEnv ] demoTable))
     <> Threw InvalidToken.
Proof.
  exact (stored_token_stays_known demoHash "s2" demoTable
           {| id := "t2"; userId := "bob"; tokenHash := "h:s2";
              expiresAt := 100; revoked := false |}
           [ RevokeAllRefreshTokensForUser "bob";
             RotateRefreshToken "s2" "bob" 200 demoEnv ]
           "bob" 200 demoEnv eq_refl).
Defined.

(** What the three messages of a rotation tell.  A rotation that throws
    has written nothing.  The error is [InvalidToken] exactly when no row
    has the hash of the presented secret, [ReuseDetected] exactly when the
    row found is revoked, [Expired] exactly when the row found is not
    revoked and its expiry is before the date of the call.  The [P2025] of
    an update that finds no row is never thrown. *)
Theorem rotation_throws hashToken raw u e env (t : Table) err t' :
  rotateRefreshToken hashToken raw u e env t = (Threw err, t') ->
  t' = t
  /\ (err = InvalidToken <-> find (by_tokenHash (hashToken raw)) t = None)
  /\ (err = ReuseDetected
      <-> exists r, find (by_tokenHash (hashToken raw)) t = Some r
                    /\ revoked r = true)
  /\ (err = Expired
      <-> exists r, find (by_tokenHash (hashToken raw)) t = Some r
                    /\ revoked r = false /\ (expiresAt r < now env)%Z)
  /\ err <> PrismaError "P2025".
Proof.
  rewrite rotate_cases.
  destruct (find (by_tokenHash (hashToken raw)) t) as [r|].
  - destruct (revoked r) eqn:Hrev.
    { intros [= <- <-]. split; [reflexivity|]. split; [split; discriminate|].
      split; [split; [intros _; by exists r | reflexivity]|].
      split; [|discriminate].
      split; [discriminate | intros (r0 & [= <-] & Hr0 & _); congruence]. }
    destruct (expiresAt r <? now env)%Z eqn:Hexp.
    { intros [= <- <-]. split; [reflexivity|]. split; [split; discriminate|].
      split; [split; [discriminate | intros (r0 & [= <-] & Hr0); congruence]|].
      split; [|discriminate].
      split; [intros _; exists r; by apply Z.ltb_lt in Hexp | reflexivity]. }
    destruct (collides hashToken env t); [|discriminate].
    intros [= <- <-]. split; [reflexivity|]. split; [split; discriminate|].
    split; [split; [discriminate | intros (r0 & [= <-] & Hr0); congruence]|].
    split; [|discriminate].
    split; [discriminate|]. intros (r0 & [= <-] & _ & Hlt).
    apply Z.ltb_ge in Hexp. lia.
  - intros [= <- <-]. split; [reflexivity|]. split; [done|].
    split; [split; [discriminate | intros (r0 & Hr0 & _); discriminate]|].
    split; [|discriminate].
    split; [discriminate | intros (r0 & Hr0 & _); discriminate].
Qed.

Lemma rotation_throws_witness :
  demoTable = demoTable
  /\ (Expired = InvalidToken <-> find (by_tokenHash (demoHash "s3")) demoTable = None)
  /\ (Expired = ReuseDetected
      <-> exists r, find (by_tokenHash (demoHash "s3")) demoTable = Some r
                    /\ revoked r = true)
  /\ (Expired = Expired
      <-> exists r, find (by_tokenHash (demoHash "s3")) demoTable = Some r
                    /\ revoked r = false /\ (expiresAt r < now demoEnv)%Z)
  /\ Expired <> PrismaError "P2025".
Proof.
  exact (rotation_throws demoHash "s3" "ghost" 200 demoEnv demoTable _ _ eq_refl).
Defined.

Lemma live_rows_update_row v t r :
  List.NoDup (map id t) -> In r t ->
  length (live_rows v (update_row (id r) t)) + (if live_of v r then 1 else 0)
  = length (live_rows v t).
Proof.
  unfold live_rows.
  induction t as [|x t IH]; simpl; [done|]. intros Hnd Hin.
  apply List.NoDup_cons_iff in Hnd as [Hx Hnd].
  destruct (by_id (id r) x) eqn:E.
  - assert (x = r) as ->.
    { destruct Hin as [Heq|Hin]; [exact Heq|]. exfalso. apply Hx.
      apply by_id_true in E. rewrite E. by apply in_map. }
    simpl. unfold live_of at 1. simpl. rewrite andb_false_r.
    destruct (live_of v r); simpl; lia.
  - destruct Hin as [->|Hin].
    { assert (by_id (id r) r = true) by by apply by_id_true. congruence. }
    simpl. specialize (IH Hnd Hin). destruct (live_of v x); simpl; lia.
Qed.

(** On a table with a unique primary key, a rotation made for the owner of
    the presented token leaves every user with as many unrevoked rows as
    before: the owner loses the old row and gains the new one. *)
Theorem rotation_keeps_live_count hashToken raw e env (t : Table) r res t' v :
  List.NoDup (map id t) ->
  find (by_tokenHash (hashToken raw)) t = Some r ->
  rotateRefreshToken hashToken raw (userId r) e env t = (Returned res, t') ->
  length (live_rows v t') = length (live_rows v t).
Proof.
  intros Hnd Hfind Hrot.
  destruct (rotate_returned _ _ _ _ _ _ _ _ Hnd Hrot)
    as (r0 & Hfind0 & Hrev & -> & _ & _ & Hnew & _).
  assert (r0 = r) as -> by congruence.
  apply find_some in Hfind as [Hin _].
  pose proof (live_rows_update_row v t r Hnd Hin) as Hcount.
  unfold live_rows in *. rewrite List.filter_app, length_app. simpl.
  assert (live_of v (newRecord res) = live_of v r) as ->.
  { rewrite Hnew. unfold live_of, by_userId. simpl. by rewrite Hrev. }
  destruct (live_of v r); simpl in *; lia.
Qed.

Lemma rotation_keeps_live_count_witness :
  length (live_rows "alice"
            (update_row "t1" demoTable ++ [rotatedRow demoHash "alice" 200 demoEnv]))
  = length (live_rows "alice" demoTable).
Proof.
  exact (rotation_keeps_live_count demoHash "s1" 200 demoEnv demoTable
           {| id := "t1"; userId := "alice"; tokenHash := "h:s1";
              expiresAt := 100; revoked := false |} _ _ "alice"
           demoTable_ids eq_refl eq_refl).
Defined.

(** ** The user table *)

Lemma user_by_id_true i u : UserTable.by_id i u = true <-> UserTable.id u = i.
Proof. unfold UserTable.by_id. apply String.eqb_eq. Qed.

Lemma user_by_email_true e u : UserTable.by_email e u = true <-> UserTable.email u = e.
Proof. unfold UserTable.by_email. apply String.eqb_eq. Qed.

Lemma user_existsb_by_id i users :
  existsb (UserTable.by_id i) users = true <-> In i (map UserTable.id users).
Proof.
  rewrite existsb_exists, in_map_iff. split.
  - intros (r & Hin & H). exists r. split; [by apply user_by_id_true | exact Hin].
  - intros (r & H & Hin). exists r. split; [exact Hin | by apply user_by_id_true].
Qed.

Lemma user_existsb_by_email e users :
  existsb (UserTable.by_email e) users = true <-> In e (map UserTable.email users).
Proof.
  rewrite existsb_exists, in_map_iff. split.
  - intros (r & Hin & H). exists r. split; [by apply user_by_email_true | exact Hin].
  - intros (r & H & Hin). exists r. split; [exact Hin | by apply user_by_email_true].
Qed.

Lemma find_fresh_one {A} (p : A -> bool) (l : list A) x :
  existsb p l = false -> p x = true -> find p (l ++ [x]) = Some x.
Proof.
  intros Hl Hx. rewrite find_app_None; [simpl; by rewrite Hx|].
  destruct (find p l) eqn:E; [|reflexivity].
  assert (existsb p l = true); [|congruence]. apply find_existsb. congruence.
Qed.

Lemma user_find_by_id_unique users u :
  List.NoDup (map UserTable.id users) -> In u users ->
  UserTable.findById (UserTable.id u) users = Some u.
Proof.
  unfold UserTable.findById.
  induction users as [|x users IH]; simpl; [done|]. intros Hnd Hin.
  apply List.NoDup_cons_iff in Hnd as [Hx Hnd].
  destruct (UserTable.by_id (UserTable.id u) x) eqn:E.
  - apply user_by_id_true in E. destruct Hin as [->|Hin]; [reflexivity|].
    exfalso. apply Hx. rewrite E. by apply in_map.
  - destruct Hin as [->|Hin]; [|by apply IH].
    assert (UserTable.by_id (UserTable.id u) u = true) by by apply user_by_id_true.
    congruence.
Qed.

(** What a sign-in through a provider returns and writes. *)
Lemma oauth_cases c users :
  UserTable.run c users =
  match UserTable.findByEmail (UserTable.call_email c) users with
  | Some existingUser => (Returned existingUser, users)
  | None =>
    if existsb (UserTable.by_id (UserTable.call_newId c)) users
    then (Threw (PrismaError "P2002"), users)
    else
      let row :=
        UserTable.mkUser (UserTable.call_newId c) (UserTable.call_email c)
          (UserTable.call_firstName c) (UserTable.call_lastName c)
          (UserTable.call_avatar c) "USER" "ACTIVE"
          (Some (UserTable.mkAccount 0 0 0)) in
      (Returned row, users ++ [row])
  end.
Proof.
  unfold UserTable.run, UserTable.findOrCreateOAuthUser, UserTable.findByEmail,
    UserTable.create. simpl.
  destruct (find (UserTable.by_email (UserTable.call_email c)) users) eqn:E;
    [reflexivity|].
  assert (existsb (UserTable.by_email (UserTable.call_email c)) users = false) as ->.
  { apply not_true_is_false. intros H. apply find_existsb in H. congruence. }
  by rewrite orb_false_r.
Qed.

Lemma oauth_returned c users u users' :
  UserTable.run c users = (Returned u, users') ->
  UserTable.findByEmail (UserTable.call_email c) users' = Some u
  /\ In u users'
  /\ (users' = users \/
      (users' = users ++ [u] /\ ~ In (UserTable.id u) (map UserTable.id users)
       /\ ~ In (UserTable.email u) (map UserTable.email users))).
Proof.
  rewrite oauth_cases.
  destruct (UserTable.findByEmail (UserTable.call_email c) users) as [x|] eqn:E.
  - intros [= <- <-]. split; [exact E|]. split; [|by left].
    by apply find_some in E as [? _].
  - destruct (existsb (UserTable.by_id (UserTable.call_newId c)) users) eqn:Ei;
      [discriminate|].
    intros [= <- <-]. split; [|split].
    + unfold UserTable.findByEmail in *. apply find_fresh_one.
      * apply not_true_is_false. intros H. apply find_existsb in H. congruence.
      * by apply user_by_email_true.
    + apply in_or_app. right. by left.
    + right. split; [reflexivity|]. simpl. split.
      * intros H. apply user_existsb_by_id in H. congruence.
      * intros H. apply user_existsb_by_email, find_existsb in H.
        unfold UserTable.findByEmail in E. congruence.
Qed.

(** Signing in twice with one email gives one user: a second
    [findOrCreateOAuthUser] with the same email returns the user the first
    one returned and writes nothing, whatever names, avatar, provider or row
    key it comes with. *)
Theorem oauth_sign_in_is_idempotent (c c' : UserTable.OAuthCall)
    (users : list UserTable.User) u users' :
  UserTable.run c users = (Returned u, users') ->
  UserTable.call_email c' = UserTable.call_email c ->
  UserTable.run c' users' = (Returned u, users').
Proof.
  intros Hrun Hemail. destruct (oauth_returned _ _ _ _ Hrun) as (Hfind & _).
  by rewrite oauth_cases, Hemail, Hfind.
Qed.

Lemma oauth_sign_in_is_idempotent_witness :
  UserTable.run
    (UserTable.mkOAuthCall "carol@example.org" "C." "Other" (Some "c.png")
       UserTable.GITHUB "u9")
    (demoUsers ++ [ UserTable.mkUser "u3" "carol@example.org" "Carol" "C" None
                      "USER" "ACTIVE" (Some (UserTable.mkAccount 0 0 0)) ])
  = (Returned (UserTable.mkUser "u3" "carol@example.org" "Carol" "C" None
                 "USER" "ACTIVE" (Some (UserTable.mkAccount 0 0 0))),
     demoUsers ++ [ UserTable.mkUser "u3" "carol@example.org" "Carol" "C" None
                      "USER" "ACTIVE" (Some (UserTable.mkAccount 0 0 0)) ]).
Proof.
  exact (oauth_sign_in_is_idempotent
           (UserTable.mkOAuthCall "carol@example.org" "Carol" "C" None
              UserTable.GOOGLE "u3")
           (UserTable.mkOAuthCall "carol@example.org" "C." "Other" (Some "c.png")
              UserTable.GITHUB "u9")
           demoUsers _ _ eq_refl eq_refl).
Defined.

(** A stored user is returned as stored: when a row has the email,
    [findOrCreateOAuthUser] returns the first such row and writes nothing,
    so the names, avatar and provider it was called with are dropped and the
    role, status and account of the row are kept. *)
Theorem oauth_existing_user_is_kept (c : UserTable.OAuthCall)
    (users : list UserTable.User) existing :
  In existing users ->
  UserTable.email existing = UserTable.call_email c ->
  List.NoDup (map UserTable.email users) ->
  UserTable.run c users = (Returned existing, users).
Proof.
  intros Hin Hemail Hnd. rewrite oauth_cases.
  assert (UserTable.findByEmail (UserTable.call_email c) users = Some existing) as ->;
    [|reflexivity].
  unfold UserTable.findByEmail. rewrite <- Hemail. clear Hemail.
  induction users as [|x users IH]; simpl; [done|].
  apply List.NoDup_cons_iff in Hnd as [Hx Hnd].
  destruct (UserTable.by_email (UserTable.email existing) x) eqn:E.
  - apply user_by_email_true in E. destruct Hin as [->|Hin]; [reflexivity|].
    exfalso. apply Hx. rewrite E. by apply in_map.
  - destruct Hin as [->|Hin]; [|by apply IH].
    assert (UserTable.by_email (UserTable.email existing) existing = true)
      by by apply user_by_email_true.
    congruence.
Qed.

Lemma oauth_existing_user_is_kept_witness :
  UserTable.run
    (UserTable.mkOAuthCall "alice@example.org" "Mallory" "M" (Some "m.png")
       UserTable.GITHUB "u9") demoUsers
  = (Returned (UserTable.mkUser "u1" "alice@example.org" "Alice" "A" None
                 "ADMIN" "ACTIVE" None), demoUsers).
Proof.
  apply (oauth_existing_user_is_kept
           (UserTable.mkOAuthCall "alice@example.org" "Mallory" "M" (Some "m.png")
              UserTable.GITHUB "u9") demoUsers).
  - simpl. tauto.
  - reflexivity.
  - repeat constructor; simpl; intuition discriminate.
Defined.

(** A first sign-in creates the user: when no row has the email and the
    generated key is free, [findOrCreateOAuthUser] appends one row, with
    role [USER], status [ACTIVE] and an account of balance 0, and
    [findById] and [findByEmail] then find that row.  When the key is
    taken it throws [P2002] and writes nothing. *)
Theorem oauth_new_user_is_created (c : UserTable.OAuthCall)
    (users : list UserTable.User) :
  ~ In (UserTable.call_email c) (map UserTable.email users) ->
  let row :=
    UserTable.mkUser (UserTable.call_newId c) (UserTable.call_email c)
      (UserTable.call_firstName c) (UserTable.call_lastName c)
      (UserTable.call_avatar c) "USER" "ACTIVE"
      (Some (UserTable.mkAccount 0 0 0)) in
  (~ In (UserTable.call_newId c) (map UserTable.id users) ->
   UserTable.run c users = (Returned row, users ++ [row])
   /\ UserTable.findById (UserTable.call_newId c) (users ++ [row]) = Some row
   /\ UserTable.findByEmail (UserTable.call_email c) (users ++ [row]) = Some row)
  /\ (In (UserTable.call_newId c) (map UserTable.id users) ->
      UserTable.run c users = (Threw (PrismaError "P2002"), users)).
Proof.
  intros Hemail row. rewrite oauth_cases.
  assert (Enone : existsb (UserTable.by_email (UserTable.call_email c)) users = false).
  { apply not_true_is_false. intros H. by apply user_existsb_by_email in H. }
  assert (UserTable.findByEmail (UserTable.call_email c) users = None) as ->.
  { unfold UserTable.findByEmail.
    destruct (find _ users) eqn:E; [|reflexivity].
    assert (existsb (UserTable.by_email (UserTable.call_email c)) users = true);
      [|congruence].
    apply find_existsb. congruence. }
  split.
  - intros Hid.
    assert (Ei : existsb (UserTable.by_id (UserTable.call_newId c)) users = false).
    { apply not_true_is_false. intros H. by apply user_existsb_by_id in H. }
    rewrite Ei. split; [reflexivity|]. split.
    + apply find_fresh_one; [exact Ei | by apply user_by_id_true].
    + apply find_fresh_one; [exact Enone | by apply user_by_email_true].
  - intros Hid. by apply user_existsb_by_id in Hid as ->.
Qed.

Lemma oauth_new_user_is_created_witness :
  UserTable.run
    (UserTable.mkOAuthCall "carol@example.org" "Carol" "C" None UserTable.GOOGLE "u3")
    demoUsers
  = (Returned (UserTable.mkUser "u3" "carol@example.org" "Carol" "C" None
                 "USER" "ACTIVE" (Some (UserTable.mkAccount 0 0 0))),
     demoUsers ++ [ UserTable.mkUser "u3" "carol@example.org" "Carol" "C" None
                      "USER" "ACTIVE" (Some (UserTable.mkAccount 0 0 0)) ])
  /\ UserTable.run
       (UserTable.mkOAuthCall "carol@example.org" "Carol" "C" None UserTable.GOOGLE "u2")
       demoUsers
     = (Threw (PrismaError "P2002"), demoUsers).
Proof.
  split.
  - apply (proj1 (oauth_new_user_is_created
             (UserTable.mkOAuthCall "carol@example.org" "Carol" "C" None
                UserTable.GOOGLE "u3") demoUsers
             ltac:(simpl; intuition discriminate))).
    simpl. intuition discriminate.
  - apply (proj2 (oauth_new_user_is_created
             (UserTable.mkOAuthCall "carol@example.org" "Carol" "C" None
                UserTable.GOOGLE "u2") demoUsers
             ltac:(simpl; intuition discriminate))).
    simpl. tauto.
Defined.

Lemma oauth_well_formed c users :
  UserTable.well_formed users -> UserTable.well_formed (snd (UserTable.run c users)).
Proof.
  intros [Hi He].
  destruct (UserTable.run c users) as [[u|err] users'] eqn:Hrun; simpl.
  - destruct (oauth_returned _ _ _ _ Hrun) as (_ & _ & [->|(-> & Hid & Hem)]);
      [by split|].
    unfold UserTable.well_formed. rewrite !map_app. simpl.
    split; by apply NoDup_snoc.
  - rewrite oauth_cases in Hrun.
    destruct (UserTable.findByEmail _ users); [discriminate|].
    destruct (existsb _ users); [|discriminate].
    injection Hrun as _ <-. by split.
Qed.

(** Started from a user table in which no [id] and no [email] occurs twice,
    every run of [findOrCreateOAuthUser] calls ends in such a table, and no
    row of the start is removed or changed. *)
Theorem oauth_keeps_emails_unique (cs : list UserTable.OAuthCall)
    (users : list UserTable.User) :
  UserTable.well_formed users ->
  UserTable.well_formed (UserTable.after_all cs users)
  /\ exists added, UserTable.after_all cs users = users ++ added.
Proof.
  revert users. induction cs as [|c cs IH]; intros users Hwf; simpl.
  - split; [exact Hwf|]. exists []. by rewrite app_nil_r.
  - destruct (IH _ (oauth_well_formed c users Hwf)) as (Hwf' & added & Hadd).
    split; [exact Hwf'|].
    unfold UserTable.after_all in *. simpl. rewrite Hadd.
    destruct (UserTable.run c users) as [[u|err] users'] eqn:Hrun; simpl.
    + destruct (oauth_returned _ _ _ _ Hrun) as (_ & _ & [->|(-> & _)]).
      * by exists added.
      * exists ([u] ++ added). by rewrite app_assoc.
    + rewrite oauth_cases in Hrun.
      destruct (UserTable.findByEmail _ users); [discriminate|].
      destruct (existsb _ users); [|discriminate].
      injection Hrun as _ <-. by exists added.
Qed.

Lemma oauth_keeps_emails_unique_witness :
  UserTable.well_formed
    (UserTable.after_all
       [ UserTable.mkOAuthCall "carol@example.org" "Carol" "C" None UserTable.GOOGLE "u3";
         UserTable.mkOAuthCall "carol@example.org" "Carol" "C" None UserTable.GITHUB "u4";
         UserTable.mkOAuthCall "dave@example.org" "Dave" "D" None UserTable.GITHUB "u3" ]
       [])
  /\ exists added,
       UserTable.after_all
         [ UserTable.mkOAuthCall "carol@example.org" "Carol" "C" None UserTable.GOOGLE "u3";
           UserTable.mkOAuthCall "carol@example.org" "Carol" "C" None UserTable.GITHUB "u4";
           UserTable.mkOAuthCall "dave@example.org" "Dave" "D" None UserTable.GITHUB "u3" ]
         [] = [] ++ added.
Proof.
  apply (oauth_keeps_emails_unique _ []). split; constructor.
Defined.

(** ** [getMe] and the user table *)

(** [getMe] answers 401 to a request without [req.user], 404 when no row
    has the [id] of [req.user], and otherwise 200 with a stored row of that
    [id]. *)
Theorem getMe_answers (reqUser : option string) (users : list UserTable.User) :
  match reqUser with
  | None => getMe reqUser users = (401%nat, GetMeMessage "Not logged in")
  | Some i =>
    (~ In i (map UserTable.id users) ->
     getMe reqUser users = (404%nat, GetMeMessage "User no longer exists"))
    /\ (In i (map UserTable.id users) ->
        exists u, getMe reqUser users = (200%nat, GetMeUser u)
                  /\ In u users /\ UserTable.id u = i)
  end.
Proof.
  destruct reqUser as [i|]; [|reflexivity]. unfold getMe, UserTable.findById.
  destruct (find (UserTable.by_id i) users) as [u|] eqn:E; split.
  - intros Hout. exfalso. apply Hout, user_existsb_by_id, find_existsb. congruence.
  - intros _. exists u. apply find_some in E as [Hin Hid].
    split; [reflexivity|]. split; [exact Hin | by apply user_by_id_true].
  - reflexivity.
  - intros Hin. apply user_existsb_by_id, find_existsb in Hin. congruence.
Qed.

Lemma demoUsers_well_formed : UserTable.well_formed demoUsers.
Proof. split; repeat constructor; simpl; intuition discriminate. Qed.

(** The user [findOrCreateOAuthUser] returns is the user [getMe] answers
    with, status 200, to a request authenticated with that user's [id]. *)
Theorem getMe_after_sign_in (c : UserTable.OAuthCall) (users : list UserTable.User)
    u users' :
  UserTable.well_formed users ->
  UserTable.run c users = (Returned u, users') ->
  getMe (Some (UserTable.id u)) users' = (200%nat, GetMeUser u).
Proof.
  intros Hwf Hrun. pose proof (oauth_well_formed c users Hwf) as [Hid _].
  rewrite Hrun in Hid. simpl in Hid.
  destruct (oauth_returned _ _ _ _ Hrun) as (_ & Hin & _).
  unfold getMe. by rewrite (user_find_by_id_unique _ _ Hid Hin).
Qed.

Lemma getMe_after_sign_in_witness :
  getMe (Some "u3")
    (demoUsers ++ [ UserTable.mkUser "u3" "carol@example.org" "Carol" "C" None
                      "USER" "ACTIVE" (Some (UserTable.mkAccount 0 0 0)) ])
  = (200%nat,
     GetMeUser (UserTable.mkUser "u3" "carol@example.org" "Carol" "C" None
                  "USER" "ACTIVE" (Some (UserTable.mkAccount 0 0 0)))).
Proof.
  exact (getMe_after_sign_in
           (UserTable.mkOAuthCall "carol@example.org" "Carol" "C" None
              UserTable.GOOGLE "u3") demoUsers _ _ demoUsers_well_formed eq_refl).
Defined.

(** ** Cookies across handlers *)

Lemma session_jar User Data production days (data : Data)
    (service : Data -> Outcome (Session User)) s (es : list (Effect User)) :
  service data = Returned s ->
  es = signUp User Data production days (Some data) service
  \/ es = signIn User Data production days (Some data) service ->
  cookiesSetBy User es
  = <["refresh_token" := refreshToken s]> (<["access_token" := accessToken s]> ∅).
Proof.
  intros Hs [-> | ->]; unfold signUp, signIn; rewrite Hs;
    apply cookiesSetBy_session; simpl; intros e [<-|[<-|[]]]; exact I.
Qed.

(** [refresh] reads the cookie [signUp] and [signIn] set: on a request that
    carries their cookies, with a refresh token that is not empty, the
    service is asked about that token and its outcome decides the answer.
    On a request without a [refresh_token] cookie the answer is 401
    whatever the service would say. *)
Theorem refresh_uses_session_cookie (User Data : Type) production days
    (data : Data) (service : Data -> Outcome (Session User)) (s : Session User)
    (es : list (Effect User)) (svc : string -> Outcome string) :
  service data = Returned s ->
  es = signUp User Data production days (Some data) service
  \/ es = signIn User Data production days (Some data) service ->
  refreshToken s <> "" ->
  refresh User production (cookiesSetBy User es) svc
  = match svc (refreshToken s) with
    | Returned accessToken_ =>
      [ ResCookie "accessToken" accessToken_
          {| opt_httpOnly := true; opt_secure := production;
             opt_sameSite := "strict"; opt_path := "/"; opt_maxAge := 900000 |};
        ResJson "Access token refreshed" None ]
    | Threw _ =>
      [ ResClearCookie "accessToken" None;
        ResClearCookie "refreshToken" (Some "/api/v1/auth");
        ResStatus 403;
        ResJson "Invalid Refresh Token, please login again" None ]
    end
  /\ forall cookies : gmap string string,
       cookies !! "refresh_token" = None ->
       refresh User production cookies svc
       = [ResStatus 401; ResJson "Refresh Token Missing" None].
Proof.
  intros Hs Hes Hne. split.
  - rewrite (session_jar _ _ _ _ _ _ _ _ Hs Hes). unfold refresh.
    rewrite lookup_insert_eq.
    assert (truthy (refreshToken s) = true) as ->; [|reflexivity].
    unfold truthy. apply negb_true_iff, String.eqb_neq, Hne.
  - intros cookies Hnone. unfold refresh. by rewrite Hnone.
Qed.

Lemma refresh_uses_session_cookie_witness :
  refresh nat true
    (cookiesSetBy nat (signIn nat unit true 7 (Some tt) (fun _ => Returned demoSession)))
    (fun tok => Returned ("access-for-" ++ tok)%string)
  = [ ResCookie "accessToken" "access-for-refresh-1"
        {| opt_httpOnly := true; opt_secure := true;
           opt_sameSite := "strict"; opt_path := "/"; opt_maxAge := 900000 |};
      ResJson "Access token refreshed" None ].
Proof.
  apply (proj1 (refresh_uses_session_cookie nat unit true 7 tt
                  (fun _ => Returned demoSession) demoSession _
                  (fun tok => Returned ("access-for-" ++ tok)%string)
                  eq_refl (or_intror eq_refl) ltac:(discriminate))).
Defined.

(** A refresh does not touch the session cookies.  Whatever the request
    carries and whatever the service does, no [res.cookie] and no
    [res.clearCookie] of [refresh] names
    [config.cookie.accessCookieName] or [config.cookie.refreshCookieName];
    when the refresh succeeds its one cookie call sets the new access token
    under another name, [accessToken]. *)
Theorem refresh_leaves_session_cookies (User : Type) production production'
    (cookies : gmap string string) (svc : string -> Outcome string) :
  Forall (fun call =>
            fst call <> accessCookieName (config_cookie production')
            /\ fst call <> refreshCookieName (config_cookie production'))
    (cookieCalls User (refresh User production cookies svc))
  /\ forall tok accessToken_,
       cookies !! "refresh_token" = Some tok -> tok <> "" ->
       svc tok = Returned accessToken_ ->
       cookieCalls User (refresh User production cookies svc)
       = [("accessToken", Some accessToken_)].
Proof.
  unfold refresh. split.
  - destruct (cookies !! "refresh_token") as [tok|];
      [destruct (negb (truthy tok)); [|destruct (svc tok)]|];
      simpl; repeat constructor; discriminate.
  - intros tok a -> Hne Hsvc.
    assert (truthy tok = true) as ->.
    { unfold truthy. apply negb_true_iff, String.eqb_neq, Hne. }
    simpl. by rewrite Hsvc.
Qed.

Lemma refresh_leaves_session_cookies_witness :
  cookieCalls nat
    (refresh nat true
       (cookiesSetBy nat
          (signIn nat unit true 7 (Some tt) (fun _ => Returned demoSession)))
       (fun _ => Returned "access-2"))
  = [("accessToken", Some "access-2")].
Proof.
  exact (proj2 (refresh_leaves_session_cookies nat true true
                  (cookiesSetBy nat
                     (signIn nat unit true 7 (Some tt) (fun _ => Returned demoSession)))
                  (fun _ => Returned "access-2"))
           "refresh-1" "access-2" eq_refl ltac:(discriminate) eq_refl).
Defined.

(** [updateProfile] renews the access cookie only.  Whatever its outcome,
    every cookie call it makes names [config.cookie.accessCookieName], so
    it neither sets nor clears the refresh cookie; every [res.cookie] it
    makes is the one a sign-in makes for that access token, name and
    options alike; and when the update succeeds its one cookie call sets
    the token the service returned. *)
Theorem update_profile_renews_access_cookie (User Data : Type) production days
    (validation : option Data) (reqUser : option string)
    (svc : string -> Data -> Outcome string) :
  Forall (fun call =>
            fst call = accessCookieName (config_cookie production)
            /\ fst call <> refreshCookieName (config_cookie production))
    (cookieCalls User (updateProfile User Data production validation reqUser svc))
  /\ (forall name value options (s : Session User),
        In (ResCookie name value options)
           (updateProfile User Data production validation reqUser svc) ->
        accessToken s = value ->
        In (ResCookie name value options) (setSessionCookies User production days s))
  /\ forall profile currentUser_id token,
       validation = Some profile -> reqUser = Some currentUser_id ->
       svc currentUser_id profile = Returned token ->
       cookieCalls User (updateProfile User Data production validation reqUser svc)
       = [("access_token", Some token)].
Proof.
  unfold updateProfile. split; [|split].
  - destruct validation as [d|]; [|constructor].
    destruct (match reqUser with Some i => svc i d | None => _ end);
      simpl; repeat constructor; discriminate.
  - intros name value options s Hin <-.
    destruct validation as [d|]; [|simpl in Hin; intuition discriminate].
    destruct (match reqUser with Some i => svc i d | None => _ end) as [token|err];
      simpl in Hin; [|intuition discriminate].
    destruct Hin as [Heq|Hin]; [|intuition discriminate].
    injection Heq as <- _ <-. unfold setSessionCookies. by left.
  - intros profile i token -> -> Hsvc. by rewrite Hsvc.
Qed.

Lemma update_profile_renews_access_cookie_witness :
  cookieCalls nat
    (updateProfile nat unit false (Some tt) (Some "u1") (fun _ _ => Returned "access-2"))
  = [("access_token", Some "access-2")].
Proof.
  exact (proj2 (proj2 (update_profile_renews_access_cookie nat unit false 7
                         (Some tt) (Some "u1") (fun _ _ => Returned "access-2")))
           tt "u1" "access-2" eq_refl eq_refl eq_refl).
Defined.

(** No handler clears a cookie that [signUp] and [signIn] set: the names
    [logout] and a failed [refresh] clear are neither
    [config.cookie.accessCookieName] nor [config.cookie.refreshCookieName],
    and [signUp], [signIn] and [updateProfile] clear no cookie at all. *)
Theorem session_cookies_are_never_cleared (User Data : Type) production days
    (cookies : gmap string string) (svcLogout : string -> Outcome unit)
    (svcRefresh : string -> Outcome string)
    (validation : option Data) (service : Data -> Outcome (Session User))
    (reqUser : option string) (svcProfile : string -> Data -> Outcome string) :
  Forall (fun name => name <> accessCookieName (config_cookie production)
                      /\ name <> refreshCookieName (config_cookie production))
    (clearedNames User (logout User cookies svcLogout)
     ++ clearedNames User (refresh User production cookies svcRefresh))
  /\ clearedNames User (signUp User Data production days validation service) = []
  /\ clearedNames User (signIn User Data production days validation service) = []
  /\ clearedNames User
       (updateProfile User Data production validation reqUser svcProfile) = [].
Proof.
  split; [|split; [|split]].
  - unfold logout, refresh.
    destruct (cookies !! "refreshToken") as [tok|];
      [destruct (truthy tok); [destruct (svcLogout tok)|]|];
      (destruct (cookies !! "refresh_token") as [tok'|];
        [destruct (negb (truthy tok')); [|destruct (svcRefresh tok')]|]);
      simpl; repeat constructor; discriminate.
  - unfold signUp. destruct validation as [d|]; [|reflexivity].
    by destruct (service d).
  - unfold signIn. destruct validation as [d|]; [|reflexivity].
    by destruct (service d).
  - unfold updateProfile. destruct validation as [d|]; [|reflexivity].
    by destruct (match reqUser with Some i => svcProfile i d | None => _ end).
Qed.

(** [logout] answers 200 whatever the request carries and whatever the
    service does, also when the service throws.  It calls
    [userService.logout] at most once, and only with the value of the
    [refreshToken] cookie of the request. *)
Theorem logout_always_answers_200 (User : Type) (cookies : gmap string string)
    (svc : string -> Outcome unit) :
  statusCodes User (logout User cookies svc) = [200%nat]
  /\ (logoutCalls User (logout User cookies svc) = []
      \/ exists tok, cookies !! "refreshToken" = Some tok /\ tok <> ""
                     /\ logoutCalls User (logout User cookies svc) = [tok]).
Proof.
  unfold logout. destruct (cookies !! "refreshToken") as [tok|]; [|by split; [|left]].
  destruct (truthy tok) eqn:Ht; [|by split; [|left]].
  assert (tok <> "").
  { unfold truthy in Ht. by apply negb_true_iff, String.eqb_neq in Ht. }
  destruct (svc tok); (split; [reflexivity|]); right; by exists tok.
Qed.

(** [signUp] and [signIn] set cookies only when the service returns a
    session: when the input is invalid or the service throws, no cookie is
    set, and the status is 422, 409 or 500 for [signUp] and 422 or 401 for
    [signIn]. *)
Theorem cookies_only_on_success (User Data : Type) production days
    (validation : option Data) (service : Data -> Outcome (Session User)) :
  (forall data s, validation = Some data -> service data <> Returned s) ->
  cookiesSetBy User (signUp User Data production days validation service) = ∅
  /\ cookiesSetBy User (signIn User Data production days validation service) = ∅
  /\ In (statusCodes User (signUp User Data production days validation service))
        [[422%nat]; [409%nat]; [500%nat]]
  /\ In (statusCodes User (signIn User Data production days validation service))
        [[422%nat]; [401%nat]].
Proof.
  intros Hfail. unfold signUp, signIn.
  destruct validation as [d|]; [|simpl; tauto].
  destruct (service d) as [s|err] eqn:E; [by destruct (Hfail d s eq_refl)|].
  destruct (String.eqb (message err) "User already exists!"); simpl; tauto.
Qed.

Lemma cookies_only_on_success_witness :
  cookiesSetBy nat
    (signUp nat unit true 7 (Some tt) (fun _ => Threw (JsError "User already exists!")))
  = ∅
  /\ cookiesSetBy nat
       (signIn nat unit true 7 (Some tt) (fun _ => Threw (JsError "User already exists!")))
     = ∅
  /\ In (statusCodes nat
           (signUp nat unit true 7 (Some tt)
              (fun _ => Threw (JsError "User already exists!"))))
        [[422%nat]; [409%nat]; [500%nat]]
  /\ In (statusCodes nat
           (signIn nat unit true 7 (Some tt)
              (fun _ => Threw (JsError "User already exists!"))))
        [[422%nat]; [401%nat]].
Proof.
  apply (cookies_only_on_success nat unit true 7 (Some tt)
           (fun _ => Threw (JsError "User already exists!"))).
  intros data s _. discriminate.
Defined.
